(** * The problem-matcher registry of the task extension

    A shallow embedding of
    [packages/task/src/browser/task-problem-matcher-registry.ts]
    (class [ProblemMatcherRegistry]) together with the properties of its
    public operations: [register], [get], [getAll], [onReady] and the
    resolution of a contribution into a matcher. *)

From Stdlib Require Import String Ascii List NArith ZArith Bool Lia Permutation.
From Stdlib Require Floats.
Import ListNotations.
Local Open Scope string_scope.
Local Open Scope list_scope.

Set Implicit Arguments.

(** ** JavaScript objects used as dictionaries

    [this.matchers] is created with [Object.create(null)]: it has no
    prototype, every string is an ordinary key.  The properties are kept
    in creation order; assigning to an existing key keeps its place.
    [Object.keys] lists the keys that are array indices first, in
    ascending numeric order, and then the other keys in creation order. *)
Module JsObject.

Section Obj.
Variable V : Type.

Definition t := list (string * V).

Definition create : t := [].

(** [o[k]] *)
Fixpoint get (o : t) (k : string) : option V :=
  match o with
  | [] => None
  | (k', v) :: rest => if String.eqb k' k then Some v else get rest k
  end.

(** [o[k] = v] *)
Fixpoint set (o : t) (k : string) (v : V) : t :=
  match o with
  | [] => [(k, v)]
  | (k', v') :: rest =>
      if String.eqb k' k then (k', v) :: rest else (k', v') :: set rest k v
  end.

Definition isDigit (c : ascii) : bool :=
  let n := N_of_ascii c in (48 <=? n)%N && (n <=? 57)%N.

Fixpoint decimal (s : string) (acc : N) : option N :=
  match s with
  | EmptyString => Some acc
  | String c rest =>
      if isDigit c then decimal rest (10 * acc + (N_of_ascii c - 48))%N
      else None
  end.

(** A key is an array index when it is the canonical decimal numeral of
    an integer below 2^32 - 1. *)
Definition arrayIndex (s : string) : option N :=
  match s with
  | EmptyString => None
  | String c rest =>
      if Ascii.eqb c "0"%char
      then match rest with EmptyString => Some 0%N | _ => None end
      else match decimal s 0 with
           | Some n => if (n <? 2 ^ 32 - 1)%N then Some n else None
           | None => None
           end
  end.

Fixpoint insertIndex (n : N) (k : string) (l : list (N * string))
  : list (N * string) :=
  match l with
  | [] => [(n, k)]
  | (m, k') :: rest =>
      if (n <=? m)%N then (n, k) :: l else (m, k') :: insertIndex n k rest
  end.

Fixpoint indexKeys (o : t) : list (N * string) :=
  match o with
  | [] => []
  | (k, _) :: rest =>
      match arrayIndex k with
      | Some n => insertIndex n k (indexKeys rest)
      | None => indexKeys rest
      end
  end.

Fixpoint stringKeys (o : t) : list string :=
  match o with
  | [] => []
  | (k, _) :: rest =>
      match arrayIndex k with
      | Some _ => stringKeys rest
      | None => k :: stringKeys rest
      end
  end.

(** [Object.keys(o)] *)
Definition keys (o : t) : list string :=
  map snd (indexKeys o) ++ stringKeys o.

(** The keys in creation order. *)
Definition created (o : t) : list string := map fst o.

End Obj.

Arguments create {V}.

End JsObject.

(** ** The data model *)

(** Modelled from the spec: the enum [ApplyToKind] is declared in
    [../common], which is not part of the sources.  The registry names
    its members [allDocuments] and [closedDocuments]; the normalized
    scope is one of allDocuments, openDocuments, closedDocuments. *)
Inductive ApplyToKind := allDocuments | openDocuments | closedDocuments.

(** Modelled from the spec: the enum [FileLocationKind] is declared in
    [../common], which is not part of the sources.  The registry names
    its members [Relative] and [Absolute]; the normalized file location
    is one of absolute, relative, autoDetect. *)
Inductive FileLocationKind := AutoDetect | Relative | Absolute.

(** [a === b] on members of [FileLocationKind]. *)
Definition FileLocationKind_eqb (a b : FileLocationKind) : bool :=
  match a, b with
  | AutoDetect, AutoDetect | Relative, Relative | Absolute, Absolute => true
  | _, _ => false
  end.

(** What the registry imports from [../common], which is not part of
    the sources, taken as parameters: the entities it only passes
    around, the numeric values of the enum members (a member is falsy
    exactly when its value is 0) and the parsers. *)
Class Common := {
  ProblemPattern : Type;
  ProblemPatternContribution : Type;
  Severity : Type;
  WatchingMatcher : Type;
  WatchingMatcherContribution : Type;
  Severity_Error : Severity;
  ApplyToKind_value : ApplyToKind -> N;
  FileLocationKind_value : FileLocationKind -> N;
  ApplyToKind_fromString : option string -> option ApplyToKind;
  FileLocationKind_fromString : string -> option FileLocationKind;
  Severity_fromValue : option string -> option Severity;
  fromProblemPatternContribution :
    ProblemPatternContribution -> ProblemPattern;
  fromWatchingMatcherContribution :
    option WatchingMatcherContribution -> option WatchingMatcher
}.

(** JavaScript truthiness of the values the registry tests. *)
Definition truthyString (s : option string) : bool :=
  match s with
  | Some (String _ _) => true
  | _ => false
  end.

Definition truthyNumber (n : N) : bool := negb (N.eqb n 0).

Section Model.
Context {common : Common}.

(** What the pattern registry hands out for a name:
    [undefined | NamedProblemPattern | NamedProblemPattern[]]. *)
Inductive Patterns :=
| NoPattern
| OnePattern (p : ProblemPattern)
| PatternArray (ps : list ProblemPattern).

(** [ProblemMatcherContribution.pattern] *)
Inductive PatternContribution :=
| PatternName (name : string)
| InlinePattern (p : ProblemPatternContribution)
| InlinePatterns (ps : list ProblemPatternContribution).

(** [ProblemMatcherContribution.fileLocation] *)
Inductive FileLocationContribution :=
| LocationToken (token : string)
| LocationArray (items : list string).

Record ProblemMatcherContribution := {
  c_name : option string;
  c_label : option string;
  c_deprecated : option bool;
  c_owner : option string;
  c_source : option string;
  c_applyTo : option string;
  c_fileLocation : option FileLocationContribution;
  c_pattern : option PatternContribution;
  c_severity : option string;
  c_background : option WatchingMatcherContribution;
  c_watching : option WatchingMatcherContribution
}.

(** [ProblemMatcher] and [NamedProblemMatcher] are the same objects at
    run time; [register] casts one to the other after its name test. *)
Record ProblemMatcher := {
  name : option string;
  label : option string;
  deprecated : option bool;
  owner : option string;
  source : option string;
  applyTo : ApplyToKind;
  fileLocation : FileLocationKind;
  filePrefix : option string;
  pattern : Patterns;
  severity : option Severity;
  watching : option WatchingMatcher
}.

Definition NamedProblemMatcher := ProblemMatcher.

(** The collaborator [ProblemPatternRegistry]: whether the promise of
    its [onReady()] has settled, and its [get]. *)
Record ProblemPatternRegistry := {
  pr_ready : bool;
  pr_get : string -> Patterns
}.

(** The state of a promise of [void]. *)
Inductive Promise := Pending | Resolved.

(** The two fields of the class. *)
Record ProblemMatcherRegistry := {
  matchers : JsObject.t NamedProblemMatcher;
  readyPromise : option Promise
}.

Definition startsWithDollar (s : string) : bool :=
  match s with
  | String c _ => Ascii.eqb c "$"%char
  | EmptyString => false
  end.

(** [s.slice(1)] *)
Definition slice1 (s : string) : string :=
  match s with
  | String _ rest => rest
  | EmptyString => EmptyString
  end.

(** The property key of a value of type [string | undefined]. *)
Definition propertyKey (n : option string) : string :=
  match n with
  | Some s => s
  | None => "undefined"
  end.

Definition onReady (r : ProblemMatcherRegistry) : option Promise :=
  readyPromise r.

Definition get (r : ProblemMatcherRegistry) (n : string)
  : option NamedProblemMatcher :=
  if startsWithDollar n
  then JsObject.get (matchers r) (slice1 n)
  else JsObject.get (matchers r) n.

(** The elements are what [get] returns: the non-null assertion of the
    source does nothing at run time. *)
Definition getAll (r : ProblemMatcherRegistry)
  : list (option NamedProblemMatcher) :=
  map (fun matcherName => get r matcherName) (JsObject.keys (matchers r)).

Definition add (matcher : NamedProblemMatcher) (r : ProblemMatcherRegistry)
  : ProblemMatcherRegistry :=
  {| matchers := JsObject.set (matchers r) (propertyKey (name matcher)) matcher;
     readyPromise := readyPromise r |}.

Definition workspaceFolder : string := "${workspaceFolder}".

(** [locationKind === member], for [locationKind] possibly undefined;
    the members of an enum are distinct values. *)
Definition isKind (locationKind : option FileLocationKind)
           (member : FileLocationKind) : bool :=
  match locationKind with
  | Some k => FileLocationKind_eqb k member
  | None => false
  end.

Definition getFileLocationKindAndPrefix (matcher : ProblemMatcherContribution)
  : FileLocationKind * string :=
  let fileLocation := Relative in
  let filePrefix := workspaceFolder in
  match c_fileLocation matcher with
  | None => (fileLocation, filePrefix)
  | Some (LocationArray items) =>
      match items with
      | [] => (fileLocation, filePrefix)
      | first :: _ =>
          let locationKind := FileLocationKind_fromString first in
          if Nat.eqb (length items) 1 && isKind locationKind Absolute
          then (Absolute, filePrefix)
          else if Nat.eqb (length items) 2 && isKind locationKind Relative
                  && truthyString (nth_error items 1)
          then (Relative, nth 1 items filePrefix)
          else (fileLocation, filePrefix)
      end
  | Some (LocationToken token) =>
      match FileLocationKind_fromString token with
      | Some locationKind =>
          if truthyNumber (FileLocationKind_value locationKind)
          then (locationKind,
                if FileLocationKind_eqb locationKind Relative
                then workspaceFolder else filePrefix)
          else (fileLocation, filePrefix)
      | None => (fileLocation, filePrefix)
      end
  end.

(** Whether resolution stops at [await this.problemPatternRegistry.onReady()]:
    the pattern is a string and is not the empty one. *)
Definition awaitsPatternRegistry (matcher : ProblemMatcherContribution) : bool :=
  match c_pattern matcher with
  | Some (PatternName n) => truthyString (Some n)
  | _ => false
  end.

(** The array [patterns] at the end of the [if (matcher.pattern)] block;
    [registered] is [problemPatternRegistry.get] at the time the await
    of the string case has returned. *)
Definition resolvePatterns (matcher : ProblemMatcherContribution)
           (registered : string -> Patterns) : list ProblemPattern :=
  let patterns := [] in
  match c_pattern matcher with
  | None => patterns
  | Some (PatternName n) =>
      if truthyString (Some n)
      then match registered n with
           | PatternArray registeredPattern => patterns ++ registeredPattern
           | OnePattern registeredPattern => patterns ++ [registeredPattern]
           | NoPattern => patterns
           end
      else patterns
  | Some (InlinePatterns ps) =>
      patterns ++ map fromProblemPatternContribution ps
  | Some (InlinePattern p) =>
      patterns ++ [fromProblemPatternContribution p]
  end.

(** [a || b] on optional objects. *)
Definition orElse {A : Type} (a b : option A) : option A :=
  match a with
  | Some _ => a
  | None => b
  end.

(** The object literal [problemMatcher]. *)
Definition assemble (matcher : ProblemMatcherContribution)
           (location : FileLocationKind * string)
           (patterns : list ProblemPattern) : ProblemMatcher :=
  {| name := c_name matcher;
     label := c_label matcher;
     deprecated := c_deprecated matcher;
     owner := c_owner matcher;
     source := c_source matcher;
     applyTo :=
       match ApplyToKind_fromString (c_applyTo matcher) with
       | Some kind =>
           if truthyNumber (ApplyToKind_value kind) then kind
           else allDocuments
       | None => allDocuments
       end;
     fileLocation := fst location;
     filePrefix := Some (snd location);
     pattern := PatternArray patterns;
     severity := Severity_fromValue (c_severity matcher);
     watching :=
       fromWatchingMatcherContribution
         (orElse (c_background matcher) (c_watching matcher)) |}.

(** The value the promise of [getProblemMatcherFromContribution]
    resolves to. *)
Definition getProblemMatcherFromContribution
           (matcher : ProblemMatcherContribution)
           (registered : string -> Patterns) : ProblemMatcher :=
  assemble matcher (getFileLocationKindAndPrefix matcher)
           (resolvePatterns matcher registered).

Definition defaultMatcher (n l : string) (d : option bool) (o : string)
           (s : option string) (a : ApplyToKind) (f : FileLocationKind)
           (prefix : option string) (p : Patterns) (sev : option Severity)
  : NamedProblemMatcher :=
  {| name := Some n; label := Some l; deprecated := d; owner := Some o;
     source := s; applyTo := a; fileLocation := f; filePrefix := prefix;
     pattern := p; severity := sev; watching := None |}.

(** The eight object literals of [fillDefaults], in order. *)
Definition defaults (registered : string -> Patterns)
  : list NamedProblemMatcher :=
  [ defaultMatcher "msCompile" "Microsoft compiler problems" None
      "msCompile" None allDocuments Absolute None
      (registered "msCompile") None;
    defaultMatcher "lessCompile" "Less problems" (Some true)
      "lessCompile" (Some "less") allDocuments Absolute None
      (registered "lessCompile") (Some Severity_Error);
    defaultMatcher "gulp-tsc" "Gulp TSC Problems" None
      "typescript" (Some "ts") closedDocuments Relative
      (Some "${workspaceFolder}") (registered "gulp-tsc") None;
    defaultMatcher "jshint" "JSHint problems" None
      "jshint" (Some "jshint") allDocuments Absolute None
      (registered "jshint") None;
    defaultMatcher "jshint-stylish" "JSHint stylish problems" None
      "jshint" (Some "jshint") allDocuments Absolute None
      (registered "jshint-stylish") None;
    defaultMatcher "eslint-compact" "ESLint compact problems" None
      "eslint" (Some "eslint") allDocuments Absolute
      (Some "${workspaceFolder}") (registered "eslint-compact") None;
    defaultMatcher "eslint-stylish" "ESLint stylish problems" None
      "eslint" (Some "eslint") allDocuments Absolute None
      (registered "eslint-stylish") None;
    defaultMatcher "go" "Go problems" None
      "go" (Some "go") allDocuments Relative
      (Some "${workspaceFolder}") (registered "go") None ].

Definition fillDefaults (registered : string -> Patterns)
           (r : ProblemMatcherRegistry) : ProblemMatcherRegistry :=
  fold_left (fun acc matcher => add matcher acc) (defaults registered) r.

(** ** The event loop

    [init] and [register] are asynchronous.  A call runs up to its
    first [await]; what is left of it waits in [frames] until the
    event loop resumes it.  The pattern registry is a collaborator:
    its readiness and its content change from outside. *)

Inductive Frame :=
| AwaitingPatterns (matcher : ProblemMatcherContribution)
| AwaitingMatcher (matcher : ProblemMatcherContribution)
                  (problemMatcher : ProblemMatcher).

Record World := {
  registry : ProblemMatcherRegistry;
  problemPatternRegistry : ProblemPatternRegistry;
  initPending : bool;
  frames : list Frame;
  console : list string
}.

Inductive Action :=
| PatternsReady
| PatternsChange (registered : string -> Patterns)
| InitContinue
| CallRegister (matcher : ProblemMatcherContribution)
| Resume (i : nat).

(** The state [init] leaves behind: an empty map, no ready promise,
    and its callback waiting for the pattern registry. *)
Definition init (p : ProblemPatternRegistry) : World :=
  {| registry := {| matchers := JsObject.create; readyPromise := None |};
     problemPatternRegistry := p;
     initPending := true;
     frames := [];
     console := [] |}.

Definition withRegistry (w : World) (r : ProblemMatcherRegistry) : World :=
  {| registry := r;
     problemPatternRegistry := problemPatternRegistry w;
     initPending := initPending w;
     frames := frames w;
     console := console w |}.

Definition withFrames (w : World) (fs : list Frame) : World :=
  {| registry := registry w;
     problemPatternRegistry := problemPatternRegistry w;
     initPending := initPending w;
     frames := fs;
     console := console w |}.

Fixpoint removeAt {A : Type} (i : nat) (l : list A) : list A :=
  match l, i with
  | [], _ => []
  | _ :: rest, O => rest
  | x :: rest, S j => x :: removeAt j rest
  end.

Fixpoint replaceAt {A : Type} (i : nat) (y : A) (l : list A) : list A :=
  match l, i with
  | [], _ => []
  | _ :: rest, O => y :: rest
  | x :: rest, S j => x :: replaceAt j y rest
  end.

Definition nameError : string :=
  "Only named Problem Matchers can be registered.".

(** The synchronous part of [register(matcher)]. *)
Definition register (matcher : ProblemMatcherContribution) (w : World)
  : World :=
  if negb (truthyString (c_name matcher))
  then {| registry := registry w;
          problemPatternRegistry := problemPatternRegistry w;
          initPending := initPending w;
          frames := frames w;
          console := console w ++ [nameError] |}
  else if awaitsPatternRegistry matcher
  then withFrames w (frames w ++ [AwaitingPatterns matcher])
  else withFrames w
         (frames w ++
          [AwaitingMatcher matcher
             (getProblemMatcherFromContribution matcher
                (pr_get (problemPatternRegistry w)))]).

(** The callback [init] hands to [problemPatternRegistry.onReady().then]. *)
Definition initContinue (w : World) : World :=
  {| registry :=
       {| matchers :=
            matchers (fillDefaults (pr_get (problemPatternRegistry w))
                                   (registry w));
          readyPromise := Some Resolved |};
     problemPatternRegistry := problemPatternRegistry w;
     initPending := false;
     frames := frames w;
     console := console w |}.

(** One turn of the event loop; [None] when the action cannot happen
    in [w]. *)
Definition step (a : Action) (w : World) : option World :=
  match a with
  | PatternsReady =>
      Some {| registry := registry w;
              problemPatternRegistry :=
                {| pr_ready := true;
                   pr_get := pr_get (problemPatternRegistry w) |};
              initPending := initPending w;
              frames := frames w;
              console := console w |}
  | PatternsChange registered =>
      Some {| registry := registry w;
              problemPatternRegistry :=
                {| pr_ready := pr_ready (problemPatternRegistry w);
                   pr_get := registered |};
              initPending := initPending w;
              frames := frames w;
              console := console w |}
  | InitContinue =>
      if pr_ready (problemPatternRegistry w) && initPending w
      then Some (initContinue w)
      else None
  | CallRegister matcher => Some (register matcher w)
  | Resume i =>
      match nth_error (frames w) i with
      | Some (AwaitingPatterns matcher) =>
          if pr_ready (problemPatternRegistry w)
          then Some (withFrames w
                       (replaceAt i
                          (AwaitingMatcher matcher
                             (getProblemMatcherFromContribution matcher
                                (pr_get (problemPatternRegistry w))))
                          (frames w)))
          else None
      | Some (AwaitingMatcher _ problemMatcher) =>
          Some (withFrames (withRegistry w (add problemMatcher (registry w)))
                           (removeAt i (frames w)))
      | None => None
      end
  end.

Fixpoint run (trace : list Action) (w : World) : option World :=
  match trace with
  | [] => Some w
  | a :: rest =>
      match step a w with
      | Some w' => run rest w'
      | None => None
      end
  end.

(** The names [fillDefaults] registers. *)
Definition defaultNames : list string :=
  ["msCompile"; "lessCompile"; "gulp-tsc"; "jshint"; "jshint-stylish";
   "eslint-compact"; "eslint-stylish"; "go"].

Definition isInitContinue (a : Action) : bool :=
  match a with
  | InitContinue => true
  | _ => false
  end.

(** Whether the callback of [init] has run in a trace. *)
Definition seeded (trace : list Action) : bool :=
  existsb isInitContinue trace.

(** Every stored matcher sits under its own name. *)
Definition namesAreKeys (o : JsObject.t NamedProblemMatcher) : Prop :=
  forall k m, JsObject.get o k = Some m -> name m = Some k.

(** A waiting call of [register] has passed the name test and was made
    earlier in the trace; the matcher it is about to add was resolved
    from its contribution. *)
Definition frameOk (trace : list Action) (f : Frame) : Prop :=
  match f with
  | AwaitingPatterns matcher =>
      truthyString (c_name matcher) = true /\
      awaitsPatternRegistry matcher = true /\
      In (CallRegister matcher) trace
  | AwaitingMatcher matcher problemMatcher =>
      truthyString (c_name matcher) = true /\
      (exists registered,
        problemMatcher = getProblemMatcherFromContribution matcher registered)
      /\ In (CallRegister matcher) trace
  end.

Definition Invariant (trace : list Action) (w : World) : Prop :=
  namesAreKeys (matchers (registry w)) /\
  NoDup (JsObject.created (matchers (registry w))) /\
  Forall (frameOk trace) (frames w) /\
  initPending w = negb (seeded trace) /\
  (initPending w = true -> readyPromise (registry w) = None) /\
  (initPending w = false ->
     readyPromise (registry w) = Some Resolved /\
     pr_ready (problemPatternRegistry w) = true /\
     forall n, In n defaultNames ->
               JsObject.get (matchers (registry w)) n <> None).

End Model.

(** ** An instance of [../common] *)

(** Modelled from the spec: [../common] is not part of the sources.  The
    token vocabulary is the one of the contribution schema: for
    [applyTo], [allDocuments], [openDocuments] and [closedDocuments];
    for [fileLocation], [absolute], [relative] and [autoDetect]; for
    [severity], error, warning and info.  A token outside the vocabulary
    and an absent value parse to nothing.  The enum members are numbered
    from 0 in the order of their declaration above.  A problem pattern
    is a regular expression with the capture groups of the file, the
    line and the message. *)
Module SpecCommon.

Inductive SeverityKind := Info | Warning | Error.

Record Pattern := {
  regexp : string;
  file : option nat;
  line : option nat;
  message : option nat
}.

Record Watching := {
  beginsPattern : string;
  endsPattern : string
}.

(** Modelled from the spec: the members numbered from 0 in the order
    allDocuments, openDocuments, closedDocuments. *)
Definition applyToValue (k : ApplyToKind) : N :=
  match k with
  | allDocuments => 0
  | openDocuments => 1
  | closedDocuments => 2
  end.

(** Modelled from the spec: the members numbered from 0, the
    auto-detecting one first. *)
Definition fileLocationValue (k : FileLocationKind) : N :=
  match k with
  | AutoDetect => 0
  | Relative => 1
  | Absolute => 2
  end.

(** Modelled from the spec: the enum parse of [applyTo], with the
    tokens allDocuments, openDocuments and closedDocuments. *)
Definition applyToFromString (value : option string) : option ApplyToKind :=
  match value with
  | Some v =>
      if String.eqb v "allDocuments" then Some allDocuments
      else if String.eqb v "openDocuments" then Some openDocuments
      else if String.eqb v "closedDocuments" then Some closedDocuments
      else None
  | None => None
  end.

(** Modelled from the spec: the enum parse of [fileLocation], with the
    tokens absolute, relative and autoDetect. *)
Definition fileLocationFromString (value : string) : option FileLocationKind :=
  if String.eqb value "absolute" then Some Absolute
  else if String.eqb value "relative" then Some Relative
  else if String.eqb value "autoDetect" then Some AutoDetect
  else None.

(** Modelled from the spec: the enum parse of [severity], with the
    conventional tokens error, warning and info. *)
Definition severityFromValue (value : option string) : option SeverityKind :=
  match value with
  | Some v =>
      if String.eqb v "error" then Some Error
      else if String.eqb v "warning" then Some Warning
      else if String.eqb v "info" then Some Info
      else None
  | None => None
  end.

(** Modelled from the spec: the instance made of the definitions above;
    inline patterns and watcher descriptors are taken over as they are. *)
#[export] Instance common : Common := {|
  ProblemPattern := Pattern;
  ProblemPatternContribution := Pattern;
  Severity := SeverityKind;
  WatchingMatcher := Watching;
  WatchingMatcherContribution := Watching;
  Severity_Error := Error;
  ApplyToKind_value := applyToValue;
  FileLocationKind_value := fileLocationValue;
  ApplyToKind_fromString := applyToFromString;
  FileLocationKind_fromString := fileLocationFromString;
  Severity_fromValue := severityFromValue;
  fromProblemPatternContribution := fun p => p;
  fromWatchingMatcherContribution := fun w => w
|}.

(** Sample data. *)
Definition pat (r : string) : Pattern :=
  {| regexp := r; file := Some 1%nat; line := Some 2%nat; message := Some 3%nat |}.

(** A contribution with a name and nothing else. *)
Definition named (n : option string) : ProblemMatcherContribution :=
  {| c_name := n; c_label := None; c_deprecated := None; c_owner := None;
     c_source := None; c_applyTo := None; c_fileLocation := None;
     c_pattern := None; c_severity := None; c_background := None;
     c_watching := None |}.

Definition withPattern (n : string) (p : PatternContribution)
  : ProblemMatcherContribution :=
  {| c_name := Some n; c_label := None; c_deprecated := None;
     c_owner := None; c_source := None; c_applyTo := None;
     c_fileLocation := None; c_pattern := Some p; c_severity := None;
     c_background := None; c_watching := None |}.

Definition withFileLocation (n : string) (f : FileLocationContribution)
  : ProblemMatcherContribution :=
  {| c_name := Some n; c_label := None; c_deprecated := None;
     c_owner := None; c_source := None; c_applyTo := None;
     c_fileLocation := Some f; c_pattern := None; c_severity := None;
     c_background := None; c_watching := None |}.

Definition withApplyTo (n : string) (a : option string)
  : ProblemMatcherContribution :=
  {| c_name := Some n; c_label := None; c_deprecated := None;
     c_owner := None; c_source := None; c_applyTo := a;
     c_fileLocation := None; c_pattern := None; c_severity := None;
     c_background := None; c_watching := None |}.

(** A pattern registry that knows [tsc] (three patterns) and [one]
    (a single pattern). *)
Definition samplePatterns (n : string) : Patterns :=
  if String.eqb n "tsc" then PatternArray [pat "a"; pat "b"; pat "c"]
  else if String.eqb n "one" then OnePattern (pat "x")
  else NoPattern.

Definition readyRegistry : ProblemPatternRegistry :=
  {| pr_ready := true; pr_get := samplePatterns |}.

Definition pendingRegistry : ProblemPatternRegistry :=
  {| pr_ready := false; pr_get := samplePatterns |}.

(** The world a trace leads to from the state [init] leaves. *)
Definition after (trace : list Action) (p : ProblemPatternRegistry) : World :=
  match run trace (init p) with
  | Some w => w
  | None => init p
  end.

(** A pattern registry with a pattern under the empty name. *)
Definition oddRegistry : ProblemPatternRegistry :=
  {| pr_ready := false;
     pr_get := fun n => if String.eqb n "" then PatternArray [pat "a"]
                        else NoPattern |}.

End SpecCommon.

(** ** Counting along a trace *)
Section Accounting.
Context {common : Common}.

(** A call of [register] that fails the name test. *)
Definition isUnnamedCall (a : Action) : bool :=
  match a with
  | CallRegister matcher => negb (truthyString (c_name matcher))
  | _ => false
  end.

(** Where a stored matcher can come from: an object literal of
    [fillDefaults], or the resolution of a contribution handed to
    [register] in the trace. *)
Definition Provenance (trace : list Action) (m : NamedProblemMatcher) : Prop :=
  (exists registered, In m (defaults registered)) \/
  (exists matcher registered,
      In (CallRegister matcher) trace /\
      m = getProblemMatcherFromContribution matcher registered).

End Accounting.

(** * The notification manager

    A shallow embedding of the class [NotificationManagerImpl]: the
    bookkeeping of the pending notifications and of the promises their
    callers wait on. *)

(** ** JavaScript maps

    A [Map] keeps its entries in insertion order; [set] on a key that is
    present keeps its place. *)
Module JsMap.

Section MapOps.
Variable V : Type.

Definition t := list (string * V).

Definition get (m : t) (k : string) : option V := JsObject.get m k.

Definition set (m : t) (k : string) (v : V) : t := JsObject.set m k v.

Fixpoint delete (m : t) (k : string) : t :=
  match m with
  | [] => []
  | (k', v) :: rest =>
      if String.eqb k' k then rest else (k', v) :: delete rest k
  end.

Definition values (m : t) : list V := map snd m.

Definition keys (m : t) : list string := map fst m.

Definition size (m : t) : nat := length m.

End MapOps.

End JsMap.

(** The members of [MessageType] the manager tells apart; every other
    member, like an absent type, is shown as an information. *)
Module MessageType.
Inductive t := Error | Warning | Progress | Other (tag : N).
End MessageType.

(** The field [type] of a notification. *)
Module NotificationType.
Inductive t := info | warning | error | progress.
End NotificationType.

(** What the manager takes from outside, as parameters: numbers with
    the two tests made on them ([x] is truthy, [x > 0]) and the rounded
    percentage [Math.round(done / total * 100)]; the MD5 digest as a
    string; the text a message type has inside a template string; the
    inline rendering of the markdown engine; the length of a string in
    code units; the constant [ProgressMessage.Cancel]. *)
Class NotificationDeps := {
  Number : Type;
  zero : Number;
  truthyNum : Number -> bool;
  positive : Number -> bool;
  percent : Number -> Number -> Number;
  md5 : string -> string;
  typeText : option MessageType.t -> string;
  renderInline : string -> string;
  codeUnits : string -> nat;
  Cancel : string
}.

Section NotificationManager.
Context {deps : NotificationDeps}.

Record Notification := {
  messageId : string;
  message : string;
  n_source : option string;
  expandable : bool;
  collapsed : bool;
  n_type : NotificationType.t;
  actions : list string;
  n_progress : option Number
}.

Record MessageOptions := {
  timeout : option Number
}.

(** [PlainMessage], and [ProgressMessage] which has the same fields. *)
Record PlainMessage := {
  m_type : option MessageType.t;
  m_text : string;
  m_actions : option (list string);
  m_options : option MessageOptions;
  m_source : option string
}.

Record ProgressUpdate := {
  u_message : option string;
  u_work : option (Number * Number)
}.

(** A [Deferred] is known by the order of its creation. *)
Definition Deferred := nat.

(** The fields of the manager, the preference it reads, and what it
    has asked of its surroundings so far: the calls of
    [fireUpdateEvent], the promises it has resolved and with what, the
    timers it has set and the cancellation callbacks it has handed
    out. *)
Record Manager := {
  notifications : JsMap.t Notification;
  resultPromises : JsMap.t Deferred;
  openState : bool;
  notificationTimeout : Number;
  updateRequests : nat;
  resolved : list (Deferred * option string);
  nextDeferred : nat;
  timers : list (Number * string);
  cancelHooks : list (nat * string)
}.

Definition newManager (preference : Number) : Manager :=
  {| notifications := [];
     resultPromises := [];
     openState := false;
     notificationTimeout := preference;
     updateRequests := 0;
     resolved := [];
     nextDeferred := 0;
     timers := [];
     cancelHooks := [] |}.

Definition fireUpdateEvent (s : Manager) : Manager :=
  {| notifications := notifications s;
     resultPromises := resultPromises s;
     openState := openState s;
     notificationTimeout := notificationTimeout s;
     updateRequests := S (updateRequests s);
     resolved := resolved s;
     nextDeferred := nextDeferred s;
     timers := timers s;
     cancelHooks := cancelHooks s |}.

Definition setOpen (b : bool) (s : Manager) : Manager :=
  {| notifications := notifications s;
     resultPromises := resultPromises s;
     openState := b;
     notificationTimeout := notificationTimeout s;
     updateRequests := updateRequests s;
     resolved := resolved s;
     nextDeferred := nextDeferred s;
     timers := timers s;
     cancelHooks := cancelHooks s |}.

Definition setNotifications (ns : JsMap.t Notification) (s : Manager)
  : Manager :=
  {| notifications := ns;
     resultPromises := resultPromises s;
     openState := openState s;
     notificationTimeout := notificationTimeout s;
     updateRequests := updateRequests s;
     resolved := resolved s;
     nextDeferred := nextDeferred s;
     timers := timers s;
     cancelHooks := cancelHooks s |}.

Definition hide (s : Manager) : Manager :=
  fireUpdateEvent (setOpen false s).

Definition toggle (s : Manager) : Manager :=
  fireUpdateEvent (setOpen (negb (openState s)) s).

(** An argument of type [Notification | string]. *)
Inductive Target :=
| ById (id : string)
| ByObject (n : Notification).

Definition find (s : Manager) (notification : Target) : option Notification :=
  match notification with
  | ById id => JsMap.get (notifications s) id
  | ByObject n => Some n
  end.

Definition getId (notification : Target) : string :=
  match notification with
  | ById id => id
  | ByObject n => messageId n
  end.

Definition accept (notification : Target) (action : option string)
           (s : Manager) : Manager :=
  let messageId := getId notification in
  if negb (truthyString (Some messageId)) then s
  else
    let s1 := setNotifications (JsMap.delete (notifications s) messageId) s in
    match JsMap.get (resultPromises s1) messageId with
    | None => s1
    | Some result =>
        let s2 :=
          {| notifications := notifications s1;
             resultPromises := JsMap.delete (resultPromises s1) messageId;
             openState := openState s1;
             notificationTimeout := notificationTimeout s1;
             updateRequests := updateRequests s1;
             resolved := resolved s1 ++ [(result, action)];
             nextDeferred := nextDeferred s1;
             timers := timers s1;
             cancelHooks := cancelHooks s1 |} in
        let s3 := if Nat.eqb (JsMap.size (notifications s2)) 0
                  then setOpen false s2 else s2 in
        fireUpdateEvent s3
    end.

Definition clear (notification : Target) (s : Manager) : Manager :=
  accept notification None s.

Definition clearAll (s : Manager) : Manager :=
  let s1 := fireUpdateEvent (setOpen false s) in
  fold_left (fun acc n => clear (ByObject n) acc)
            (JsMap.values (notifications s1)) s1.

Definition toggleCollapsed (n : Notification) : Notification :=
  {| messageId := messageId n;
     message := message n;
     n_source := n_source n;
     expandable := expandable n;
     collapsed := negb (collapsed n);
     n_type := n_type n;
     actions := actions n;
     n_progress := n_progress n |}.

(** The notification found is the object in the map: changing it
    changes the entry. *)
Definition toggleExpansion (notificationId : string) (s : Manager) : Manager :=
  match find s (ById notificationId) with
  | None => s
  | Some notification =>
      fireUpdateEvent
        (setNotifications
           (JsMap.set (notifications s) notificationId
                      (toggleCollapsed notification)) s)
  end.

Definition lineFeed : ascii := "010"%char.

Definition carriageReturn : ascii := "013"%char.

(** [content.replace(/(\r)?\n/gm, ' ')] *)
Fixpoint replaceNewlines (content : string) : string :=
  match content with
  | EmptyString => EmptyString
  | String c rest =>
      if Ascii.eqb c lineFeed then String " " (replaceNewlines rest)
      else if Ascii.eqb c carriageReturn then
        match rest with
        | String c2 rest2 =>
            if Ascii.eqb c2 lineFeed then String " " (replaceNewlines rest2)
            else String c (replaceNewlines rest)
        | EmptyString => String c EmptyString
        end
      else String c (replaceNewlines rest)
  end.

Definition renderMessage (content : string) : string :=
  renderInline (replaceNewlines content).

Definition isExpandable (message : string) (source : option string)
           (actions : list string) : bool :=
  if Nat.eqb (length actions) 0 && truthyString source then true
  else Nat.ltb 500 (codeUnits message).

Definition toNotificationType (type : option MessageType.t)
  : NotificationType.t :=
  match type with
  | Some MessageType.Error => NotificationType.error
  | Some MessageType.Warning => NotificationType.warning
  | Some MessageType.Progress => NotificationType.progress
  | _ => NotificationType.info
  end.

(** [array || []] *)
Definition orEmpty (l : option (list string)) : list string :=
  match l with
  | Some items => items
  | None => []
  end.

Definition getMessageId (m : PlainMessage) : string :=
  md5 ("[" ++ typeText (m_type m) ++ "] " ++ m_text m ++ " : "
       ++ String.concat " | " (orEmpty (m_actions m)) ++ ";").

(** [Array.from(new Set(items))]: the first occurrence of each element,
    in order. *)
Fixpoint uniqueFrom (seen : list string) (items : list string) : list string :=
  match items with
  | [] => []
  | x :: rest =>
      if existsb (String.eqb x) seen then uniqueFrom seen rest
      else x :: uniqueFrom (x :: seen) rest
  end.

Definition unique (items : option (list string)) : list string :=
  uniqueFrom [] (orEmpty items).

(** [plainMessage.options && plainMessage.options.timeout ||
     this.preferences['notification.timeout']] *)
Definition effectiveTimeout (m : PlainMessage) (s : Manager) : Number :=
  match m_options m with
  | Some options =>
      match timeout options with
      | Some t => if truthyNum t then t else notificationTimeout s
      | None => notificationTimeout s
      end
  | None => notificationTimeout s
  end.

(** The part of [showMessage] and [showProgress] after the lookup of the
    pending promise: a new [Deferred], the notification, the open
    state and the update event. *)
Definition present (id : string) (plainMessage : PlainMessage)
           (progress0 : option Number) (s : Manager) : Manager :=
  let result := nextDeferred s in
  let message := renderMessage (m_text plainMessage) in
  let type := toNotificationType (m_type plainMessage) in
  let actions := unique (m_actions plainMessage) in
  let source := m_source plainMessage in
  let expandable := isExpandable message source actions in
  let collapsed := expandable in
  fireUpdateEvent
    {| notifications :=
         JsMap.set (notifications s) id
           {| messageId := id; message := message; n_source := None;
              expandable := expandable; collapsed := collapsed;
              n_type := type; actions := actions;
              n_progress := progress0 |};
       resultPromises := JsMap.set (resultPromises s) id result;
       openState := true;
       notificationTimeout := notificationTimeout s;
       updateRequests := updateRequests s;
       resolved := resolved s;
       nextDeferred := S (nextDeferred s);
       timers := timers s;
       cancelHooks := cancelHooks s |}.

Definition setTimeout (t : Number) (id : string) (s : Manager) : Manager :=
  {| notifications := notifications s;
     resultPromises := resultPromises s;
     openState := openState s;
     notificationTimeout := notificationTimeout s;
     updateRequests := updateRequests s;
     resolved := resolved s;
     nextDeferred := nextDeferred s;
     timers := timers s ++ [(t, id)];
     cancelHooks := cancelHooks s |}.

Definition onCancellationRequested (token : nat) (id : string) (s : Manager)
  : Manager :=
  {| notifications := notifications s;
     resultPromises := resultPromises s;
     openState := openState s;
     notificationTimeout := notificationTimeout s;
     updateRequests := updateRequests s;
     resolved := resolved s;
     nextDeferred := nextDeferred s;
     timers := timers s;
     cancelHooks := cancelHooks s ++ [(token, id)] |}.

(** [showMessage]: the promise it returns and the state it leaves. *)
Definition showMessage (plainMessage : PlainMessage) (s : Manager)
  : Deferred * Manager :=
  let messageId := getMessageId plainMessage in
  match JsMap.get (resultPromises s) messageId with
  | Some result => (result, s)
  | None =>
      let s1 := present messageId plainMessage None s in
      let s2 :=
        if Nat.eqb (length (unique (m_actions plainMessage))) 0
        then let t := effectiveTimeout plainMessage s1 in
             if positive t then setTimeout t messageId s1 else s1
        else s1 in
      (nextDeferred s, s2)
  end.

Definition showProgress (messageId : string) (plainMessage : PlainMessage)
           (cancellationToken : nat) (s : Manager) : Deferred * Manager :=
  match JsMap.get (resultPromises s) messageId with
  | Some result => (result, s)
  | None =>
      (nextDeferred s,
       onCancellationRequested cancellationToken messageId
         (present messageId plainMessage (Some zero) s))
  end.

Definition toPlainProgress (update : ProgressUpdate) : option Number :=
  match u_work update with
  | Some (done, total) => Some (percent done total)
  | None => None
  end.

Definition reported (update : ProgressUpdate) (n : Notification)
  : Notification :=
  {| messageId := messageId n;
     message := match u_message update with
                | Some (String a rest) => String a rest
                | _ => message n
                end;
     n_source := n_source n;
     expandable := expandable n;
     collapsed := collapsed n;
     n_type := n_type n;
     actions := actions n;
     n_progress := toPlainProgress update |}.

Definition reportProgress (messageId : string) (update : ProgressUpdate)
           (isCancellationRequested : bool) (s : Manager) : Manager :=
  match find s (ById messageId) with
  | None => s
  | Some notification =>
      fireUpdateEvent
        (if isCancellationRequested
         then clear (ById messageId) s
         else setNotifications
                (JsMap.set (notifications s) messageId
                           (reported update notification)) s)
  end.

(** The calls the manager receives, those of its own timers and
    cancellation callbacks among them. *)
Inductive Call :=
| CallHide
| CallToggle
| CallAccept (notification : Target) (action : option string)
| CallClear (notification : Target)
| CallClearAll
| CallToggleExpansion (notificationId : string)
| CallShowMessage (plainMessage : PlainMessage)
| CallShowProgress (messageId : string) (plainMessage : PlainMessage)
                   (cancellationToken : nat)
| CallReportProgress (messageId : string) (update : ProgressUpdate)
                     (isCancellationRequested : bool).

Definition perform (call : Call) (s : Manager) : Manager :=
  match call with
  | CallHide => hide s
  | CallToggle => toggle s
  | CallAccept n action => accept n action s
  | CallClear n => clear n s
  | CallClearAll => clearAll s
  | CallToggleExpansion id => toggleExpansion id s
  | CallShowMessage m => snd (showMessage m s)
  | CallShowProgress id m token => snd (showProgress id m token s)
  | CallReportProgress id update cancelled =>
      reportProgress id update cancelled s
  end.

Definition performAll (calls : list Call) (s : Manager) : Manager :=
  fold_left (fun acc call => perform call acc) calls s.

(** The two maps go together: the same keys in the same order, every
    notification under its own id; the promises created so far are the
    pending ones and the resolved ones, each of them once. *)
Definition Consistent (s : Manager) : Prop :=
  JsMap.keys (notifications s) = JsMap.keys (resultPromises s) /\
  NoDup (JsMap.keys (notifications s)) /\
  (forall id n, JsMap.get (notifications s) id = Some n -> messageId n = id) /\
  NoDup (JsMap.values (resultPromises s) ++ map fst (resolved s)) /\
  (forall d, In d (JsMap.values (resultPromises s) ++ map fst (resolved s)) <->
             d < nextDeferred s).

End NotificationManager.

(** Sample surroundings for the manager: the numbers are integers, a
    type is shown by its name, and the digest, the renderer and the
    length are those of the text as it is. *)
Module SampleDeps.

Definition showType (type : option MessageType.t) : string :=
  match type with
  | Some MessageType.Error => "error"
  | Some MessageType.Warning => "warning"
  | Some MessageType.Progress => "progress"
  | Some (MessageType.Other _) => "other"
  | None => "undefined"
  end.

#[export] Instance deps : NotificationDeps := {|
  Number := Z;
  zero := 0%Z;
  truthyNum := fun x => negb (Z.eqb x 0);
  positive := fun x => Z.ltb 0 x;
  percent := fun done total => (done * 100 / total)%Z;
  md5 := fun text => text;
  typeText := showType;
  renderInline := fun text => text;
  codeUnits := String.length;
  Cancel := "Cancel"
|}.

Definition plain (text : string) (acts : option (list string))
           (t : option Z) (source : option string) : PlainMessage :=
  {| m_type := None; m_text := text; m_actions := acts;
     m_options := Some {| timeout := t |}; m_source := source |}.

(** A manager that has received no call yet. *)
Definition fresh : Manager := @newManager deps 3000%Z.

End SampleDeps.

(** * The progress bridge on the main side

    A shallow embedding of the class [NotificationMainImpl].  Its
    numbers are the binary64 floats of JavaScript. *)
Module NotificationMain.
Import Floats.

(** [x || 0] on a number that may be undefined: 0, -0, NaN and
    undefined give 0. *)
Definition orZero (x : option float) : float :=
  match x with
  | Some v => if PrimFloat.is_zero v || PrimFloat.is_nan v
              then PrimFloat.zero else v
  | None => PrimFloat.zero
  end.

(** Whether a number is truthy. *)
Definition truthy (x : float) : bool :=
  negb (PrimFloat.is_zero x || PrimFloat.is_nan x).

(** [Math.min(x, y)]: NaN when one of the two is NaN; -0 is below +0. *)
Definition Math_min (x y : float) : float :=
  if PrimFloat.is_nan x || PrimFloat.is_nan y then PrimFloat.nan
  else if PrimFloat.is_zero x && PrimFloat.is_zero y
       then (if PrimFloat.get_sign x || PrimFloat.get_sign y
             then PrimFloat.neg_zero else PrimFloat.zero)
       else if PrimFloat.leb x y then x else y.

Definition hundred : float := 100%float.

(** [string | NotificationMain.StartProgressOptions] *)
Inductive StartOptions :=
| Text (message : string)
| Options (message : string) (location : option string).

Record ProgressReport := {
  message : option string;
  increment : option float
}.

(** What [progress.report] receives: the message and, when [work] is
    not undefined, its [done] (the total is always 100). *)
Record Reported := {
  r_id : string;
  r_message : option string;
  r_done : option float
}.

(** The two maps of the class, and what it has asked of the progresses
    so far: the ones it cancelled and the reports it passed on.  A
    [Progress] is known by its id. *)
Record Main := {
  progressMap : JsMap.t string;
  progress2Work : JsMap.t float;
  cancelled : list string;
  reports : list Reported
}.

Definition create : Main :=
  {| progressMap := []; progress2Work := [];
     cancelled := []; reports := [] |}.

(** The text and the location [$startProgress(options)] asks the
    message service to show. *)
Definition progressRequest (options : StartOptions) : string * option string :=
  let message := match options with
                 | Text text => text
                 | Options text _ => text
                 end in
  let location := match options with
                  | Text _ => Some "notification"
                  | Options _ l => l
                  end in
  (message, location).

(** [$startProgress] from the point where the message service has
    handed back the progress, whose id is [progressId]. *)
Definition startProgress (progressId : string) (s : Main) : string * Main :=
  (progressId,
   {| progressMap := JsMap.set (progressMap s) progressId progressId;
      progress2Work := JsMap.set (progress2Work s) progressId PrimFloat.zero;
      cancelled := cancelled s;
      reports := reports s |}).

Definition stopProgress (id : string) (s : Main) : Main :=
  match JsMap.get (progressMap s) id with
  | Some progress =>
      {| progressMap := JsMap.delete (progressMap s) id;
         progress2Work := JsMap.delete (progress2Work s) id;
         cancelled := cancelled s ++ [progress];
         reports := reports s |}
  | None => s
  end.

(** The local [done] of [$updateProgress]. *)
Definition doneOf (work : option float) (item : ProgressReport) : float :=
  Math_min (PrimFloat.add (orZero work) (orZero (increment item))) hundred.

Definition updateProgress (id : string) (item : ProgressReport) (s : Main)
  : Main :=
  match JsMap.get (progressMap s) id with
  | None => s
  | Some progress =>
      let done := doneOf (JsMap.get (progress2Work s) id) item in
      {| progressMap := progressMap s;
         progress2Work := JsMap.set (progress2Work s) id done;
         cancelled := cancelled s;
         reports := reports s ++
                    [{| r_id := progress;
                        r_message := message item;
                        r_done := if truthy done then Some done else None |}] |}
  end.

Inductive Call :=
| Start (progressId : string)
| Stop (id : string)
| Update (id : string) (item : ProgressReport).

Definition perform (call : Call) (s : Main) : Main :=
  match call with
  | Start progressId => snd (startProgress progressId s)
  | Stop id => stopProgress id s
  | Update id item => updateProgress id item s
  end.

Definition performAll (calls : list Call) (s : Main) : Main :=
  fold_left (fun acc call => perform call acc) calls s.

(** A work amount is in range when it is NaN or at most 100. *)
Definition inRange (x : float) : Prop :=
  PrimFloat.is_nan x = true \/ PrimFloat.leb x hundred = true.

Definition Consistent (s : Main) : Prop :=
  JsMap.keys (progressMap s) = JsMap.keys (progress2Work s) /\
  NoDup (JsMap.keys (progressMap s)) /\
  (forall id progress, JsMap.get (progressMap s) id = Some progress ->
                       progress = id) /\
  (forall id work, JsMap.get (progress2Work s) id = Some work ->
                   inRange work).

End NotificationMain.

(** * Properties *)

(** ** Objects *)
Module JsObjectFacts.
Import JsObject.

Section Facts.
Variable V : Type.
Implicit Types (o : JsObject.t V) (k : string) (v : V).

Lemma get_set_same o k v : get (set o k v) k = Some v.
Proof.
  induction o as [|[k' v'] rest IH]; simpl.
  - now rewrite String.eqb_refl.
  - destruct (String.eqb k' k) eqn:E; simpl; rewrite E; auto.
Qed.

Lemma get_set_other o k k' v : k <> k' -> get (set o k v) k' = get o k'.
Proof.
  intros Hne. induction o as [|[j w] rest IH]; simpl.
  - destruct (String.eqb_spec k k'); congruence.
  - destruct (String.eqb_spec j k) as [->|Hjk]; simpl.
    + destruct (String.eqb_spec k k'); congruence.
    + destruct (String.eqb_spec j k'); auto.
Qed.

Lemma get_created o k : get o k <> None <-> In k (created o).
Proof.
  induction o as [|[j w] rest IH]; simpl.
  - split; [congruence | tauto].
  - destruct (String.eqb_spec j k) as [->|Hjk].
    + split; [auto | congruence].
    + rewrite IH. split; [auto | intros [?|?]; congruence || auto].
Qed.

Lemma get_None_keys o k : ~ In k (created o) -> get o k = None.
Proof.
  intros H. destruct (get o k) eqn:E; [|reflexivity].
  exfalso. apply H, get_created. congruence.
Qed.

Lemma created_set_old o k v :
  In k (created o) -> created (set o k v) = created o.
Proof.
  induction o as [|[j w] rest IH]; simpl; [tauto|].
  intros Hin. destruct (String.eqb_spec j k) as [->|Hjk]; simpl; auto.
  f_equal. apply IH. destruct Hin; congruence || auto.
Qed.

Lemma created_set_new o k v :
  ~ In k (created o) -> created (set o k v) = created o ++ [k].
Proof.
  induction o as [|[j w] rest IH]; simpl; auto.
  intros Hin. destruct (String.eqb_spec j k) as [->|Hjk]; simpl.
  - tauto.
  - f_equal. apply IH. tauto.
Qed.

Lemma created_set_In o k v j :
  In j (created (set o k v)) <-> j = k \/ In j (created o).
Proof.
  destruct (in_dec string_dec k (created o)) as [Hin|Hout].
  - rewrite created_set_old by assumption.
    split; [auto | intros [->|?]; auto].
  - rewrite created_set_new by assumption. rewrite in_app_iff. simpl.
    split; [intros [?|[?|[]]]; auto | intros [->|?]; auto].
Qed.

Lemma NoDup_created_set o k v :
  NoDup (created o) -> NoDup (created (set o k v)).
Proof.
  intros Hnd. destruct (in_dec string_dec k (created o)) as [Hin|Hout].
  - now rewrite created_set_old.
  - rewrite created_set_new by assumption.
    apply NoDup_app; auto.
    + constructor; [simpl; tauto | constructor].
    + intros x Hx [<-|[]]. contradiction.
Qed.

Lemma indexKeys_created o1 o2 :
  created o1 = created o2 -> indexKeys o1 = indexKeys o2.
Proof.
  revert o2.
  induction o1 as [|[a b] r IHr]; intros [|[a2 b2] r2]; simpl;
    try discriminate; auto.
  intros H. injection H as -> H. rewrite (IHr _ H). reflexivity.
Qed.

Lemma stringKeys_created o1 o2 :
  created o1 = created o2 -> stringKeys o1 = stringKeys o2.
Proof.
  revert o2.
  induction o1 as [|[a b] r IHr]; intros [|[a2 b2] r2]; simpl;
    try discriminate; auto.
  intros H. injection H as -> H. rewrite (IHr _ H). reflexivity.
Qed.

Lemma keys_created o1 o2 : created o1 = created o2 -> keys o1 = keys o2.
Proof.
  intros H. unfold keys.
  now rewrite (indexKeys_created _ _ H), (stringKeys_created _ _ H).
Qed.

Lemma insertIndex_perm n k (l : list (N * string)) :
  Permutation (map snd (insertIndex n k l)) (k :: map snd l).
Proof.
  induction l as [|[m j] rest IH]; simpl; auto.
  destruct (n <=? m)%N; simpl; auto.
  rewrite IH. apply perm_swap.
Qed.

Lemma keys_perm o : Permutation (keys o) (created o).
Proof.
  unfold keys. induction o as [|[k v] rest IH]; simpl; auto.
  destruct (arrayIndex k) as [n|].
  - rewrite insertIndex_perm. simpl. now constructor.
  - rewrite <- Permutation_middle. now constructor.
Qed.

Lemma keys_In o k : In k (keys o) <-> In k (created o).
Proof.
  split; apply Permutation_in; [|symmetry]; apply keys_perm.
Qed.

Lemma keys_length o : length (keys o) = length o.
Proof.
  rewrite (Permutation_length (keys_perm o)). apply length_map.
Qed.

Lemma keys_set_old o k v :
  get o k <> None -> keys (set o k v) = keys o.
Proof.
  intros H. apply keys_created, created_set_old. now apply get_created.
Qed.

Lemma keys_NoDup o : NoDup (created o) -> NoDup (keys o).
Proof.
  intros H. eapply Permutation_NoDup; [symmetry; apply keys_perm | exact H].
Qed.

End Facts.

End JsObjectFacts.

(** ** Resolution of a contribution *)
Section Resolution.
Context {common : Common}.
Implicit Types (c : ProblemMatcherContribution).

Lemma truthyString_Some (s : string) :
  truthyString (Some s) = true <-> s <> "".
Proof.
  destruct s; simpl; split; congruence.
Qed.

Lemma truthyString_false (n : option string) :
  truthyString n = false <-> n = None \/ n = Some "".
Proof.
  destruct n as [[|a s]|]; simpl; split; auto; try congruence.
  all: intros [H|H]; congruence.
Qed.

Lemma isKind_spec (k : option FileLocationKind) (m : FileLocationKind) :
  isKind k m = true <-> k = Some m.
Proof.
  destruct k as [[]|], m; simpl; split; congruence.
Qed.

Lemma location_array_default c (items : list string) :
  c_fileLocation c = Some (LocationArray items) ->
  (forall x, items = [x] -> FileLocationKind_fromString x <> Some Absolute) ->
  (forall x y, items = [x; y] ->
               FileLocationKind_fromString x = Some Relative -> y = "") ->
  getFileLocationKindAndPrefix c = (Relative, workspaceFolder).
Proof.
  intros Hc H1 H2. unfold getFileLocationKindAndPrefix. rewrite Hc.
  destruct items as [|x [|y [|z rest]]]; simpl; auto.
  - destruct (isKind (FileLocationKind_fromString x) Absolute) eqn:E; auto.
    apply isKind_spec in E. now elim (H1 x eq_refl).
  - destruct (isKind (FileLocationKind_fromString x) Relative) eqn:E; auto.
    apply isKind_spec in E. rewrite (H2 x y eq_refl E). reflexivity.
Qed.

(** C2.  The file location of a contribution: absent, it is relative
    to the workspace folder; a one-element array whose element parses
    to absolute (the array with the token absolute, when the parser
    knows it) gives absolute; a two-element array whose first element
    parses to relative and whose second is a non-empty string gives
    relative with the second element as prefix; every other array,
    the token relative alone among them, gives the default. *)
Theorem fileLocation_cases
  (Habsolute : FileLocationKind_fromString "absolute" = Some Absolute)
  (Hrelative : FileLocationKind_fromString "relative" = Some Relative) :
  (forall c, c_fileLocation c = None ->
     getFileLocationKindAndPrefix c = (Relative, "${workspaceFolder}")) /\
  (forall c, c_fileLocation c = Some (LocationArray ["absolute"]) ->
     fst (getFileLocationKindAndPrefix c) = Absolute) /\
  (forall c x, c_fileLocation c = Some (LocationArray [x]) ->
     FileLocationKind_fromString x = Some Absolute ->
     fst (getFileLocationKindAndPrefix c) = Absolute) /\
  (forall c x y, c_fileLocation c = Some (LocationArray [x; y]) ->
     FileLocationKind_fromString x = Some Relative -> y <> "" ->
     getFileLocationKindAndPrefix c = (Relative, y)) /\
  (forall c items, c_fileLocation c = Some (LocationArray items) ->
     (forall x, items = [x] ->
                FileLocationKind_fromString x <> Some Absolute) ->
     (forall x y, items = [x; y] ->
                  FileLocationKind_fromString x = Some Relative -> y = "") ->
     getFileLocationKindAndPrefix c = (Relative, "${workspaceFolder}")) /\
  (forall c, c_fileLocation c = Some (LocationArray ["relative"]) ->
     getFileLocationKindAndPrefix c = (Relative, "${workspaceFolder}")).
Proof.
  assert (Hone : forall c x, c_fileLocation c = Some (LocationArray [x]) ->
     FileLocationKind_fromString x = Some Absolute ->
     fst (getFileLocationKindAndPrefix c) = Absolute).
  { intros c x Hc Hx. unfold getFileLocationKindAndPrefix.
    rewrite Hc. simpl. rewrite Hx. reflexivity. }
  repeat split.
  - intros c Hc. unfold getFileLocationKindAndPrefix. now rewrite Hc.
  - intros c Hc. now apply (Hone c "absolute").
  - exact Hone.
  - intros c x y Hc Hx Hy. unfold getFileLocationKindAndPrefix.
    rewrite Hc. simpl. rewrite Hx. simpl.
    destruct y; [congruence | reflexivity].
  - intros c items. apply location_array_default.
  - intros c Hc. apply (location_array_default c Hc).
    + intros x [= <-]. rewrite Hrelative. discriminate.
    + intros x y [=].
Qed.

(** C6.  The scope of a resolved matcher is what the parser makes of
    the contribution's [applyTo] (a member whose value is falsy gives
    way to the default); it is [allDocuments] whenever the
    contribution's [applyTo] is absent or does not parse. *)
Theorem applyTo_default
  (Habsent : ApplyToKind_fromString None = None)
  c (registered : string -> Patterns) :
  (forall kind, ApplyToKind_fromString (c_applyTo c) = Some kind ->
     applyTo (getProblemMatcherFromContribution c registered)
     = if truthyNumber (ApplyToKind_value kind) then kind else allDocuments) /\
  (c_applyTo c = None \/ ApplyToKind_fromString (c_applyTo c) = None ->
     applyTo (getProblemMatcherFromContribution c registered) = allDocuments).
Proof.
  split.
  - intros kind Hk. simpl. now rewrite Hk.
  - intros [Hc|Hp]; simpl.
    + now rewrite Hc, Habsent.
    + now rewrite Hp.
Qed.

End Resolution.

(** ** The registry and the event loop *)
Section Registry.
Context {common : Common}.
Implicit Types (c : ProblemMatcherContribution) (w : World)
  (r : ProblemMatcherRegistry) (m : ProblemMatcher).

Lemma run_snoc (trace : list Action) a w :
  run (trace ++ [a]) w =
  match run trace w with
  | Some w1 => step a w1
  | None => None
  end.
Proof.
  revert w. induction trace as [|b rest IH]; intros w; simpl.
  - now destruct (step a w).
  - destruct (step b w); auto.
Qed.

(** Induction along the traces that start where [init] ends. *)
Lemma run_ind (P : list Action -> World -> Prop) :
  (forall p, P [] (init p)) ->
  (forall trace w a w',
      P trace w -> step a w = Some w' -> P (trace ++ [a]) w') ->
  forall p trace w, run trace (init p) = Some w -> P trace w.
Proof.
  intros Hinit Hstep p trace.
  induction trace as [|a trace IH] using rev_ind; intros w Hrun.
  - injection Hrun as <-. apply Hinit.
  - rewrite run_snoc in Hrun.
    destruct (run trace (init p)) as [w1|] eqn:E; [|discriminate].
    eapply Hstep; eauto.
Qed.

Lemma seeded_snoc (trace : list Action) a :
  seeded (trace ++ [a]) = seeded trace || isInitContinue a.
Proof.
  unfold seeded. rewrite existsb_app. simpl. now rewrite orb_false_r.
Qed.

Lemma resolved_name c (registered : string -> Patterns) :
  name (getProblemMatcherFromContribution c registered) = c_name c.
Proof. reflexivity. Qed.

Lemma truthy_key (n : option string) :
  truthyString n = true -> n = Some (propertyKey n).
Proof.
  destruct n as [[|a s]|]; simpl; congruence.
Qed.

Lemma add_namesAreKeys m r :
  truthyString (name m) = true ->
  namesAreKeys (matchers r) -> namesAreKeys (matchers (add m r)).
Proof.
  intros Hm Hr k m' Hget. simpl in Hget.
  destruct (string_dec (propertyKey (name m)) k) as [<-|Hne].
  - rewrite JsObjectFacts.get_set_same in Hget. injection Hget as <-.
    now apply truthy_key.
  - rewrite JsObjectFacts.get_set_other in Hget by assumption. auto.
Qed.

Lemma add_NoDup m r :
  NoDup (JsObject.created (matchers r)) ->
  NoDup (JsObject.created (matchers (add m r))).
Proof. apply JsObjectFacts.NoDup_created_set. Qed.

Lemma add_keeps_keys m r n :
  JsObject.get (matchers r) n <> None ->
  JsObject.get (matchers (add m r)) n <> None.
Proof.
  rewrite !JsObjectFacts.get_created. simpl.
  rewrite JsObjectFacts.created_set_In. auto.
Qed.

Lemma adds_namesAreKeys (ms : list NamedProblemMatcher) r :
  Forall (fun m => truthyString (name m) = true) ms ->
  namesAreKeys (matchers r) ->
  namesAreKeys (matchers (fold_left (fun acc m => add m acc) ms r)).
Proof.
  intros H. revert r. induction H as [|m ms Hm _ IH]; intros r Hr; simpl; auto.
  apply IH. now apply add_namesAreKeys.
Qed.

Lemma adds_NoDup (ms : list NamedProblemMatcher) r :
  NoDup (JsObject.created (matchers r)) ->
  NoDup (JsObject.created
           (matchers (fold_left (fun acc m => add m acc) ms r))).
Proof.
  revert r. induction ms as [|m ms IH]; intros r Hr; simpl; auto.
  apply IH. now apply add_NoDup.
Qed.

Lemma adds_keep_keys (ms : list NamedProblemMatcher) r n :
  JsObject.get (matchers r) n <> None ->
  JsObject.get (matchers (fold_left (fun acc m => add m acc) ms r)) n
  <> None.
Proof.
  revert r. induction ms as [|m ms IH]; intros r Hr; simpl; auto.
  apply IH. now apply add_keeps_keys.
Qed.

Lemma adds_get_other (ms : list NamedProblemMatcher) r (k : string) :
  ~ In k (map (fun m => propertyKey (name m)) ms) ->
  JsObject.get (matchers (fold_left (fun acc m => add m acc) ms r)) k
  = JsObject.get (matchers r) k.
Proof.
  revert r. induction ms as [|m ms IH]; intros r Hout; simpl; auto.
  rewrite IH by (intros H; apply Hout; simpl; auto).
  simpl. apply JsObjectFacts.get_set_other.
  intros Heq. apply Hout. simpl. auto.
Qed.

(** After a run of [add] over matchers with distinct keys, each of
    them is what the map holds under its key. *)
Lemma adds_get (ms : list NamedProblemMatcher) r m :
  NoDup (map (fun m => propertyKey (name m)) ms) ->
  In m ms ->
  JsObject.get (matchers (fold_left (fun acc m => add m acc) ms r))
               (propertyKey (name m)) = Some m.
Proof.
  revert r. induction ms as [|m0 ms IH]; intros r Hnd Hin; simpl.
  - destruct Hin.
  - inversion Hnd as [|? ? Hout Hnd']; subst.
    destruct Hin as [->|Hin].
    + rewrite adds_get_other by assumption.
      apply JsObjectFacts.get_set_same.
    + apply IH; auto.
Qed.

Lemma Forall_removeAt (A : Type) (P : A -> Prop) (i : nat) (l : list A) :
  Forall P l -> Forall P (removeAt i l).
Proof.
  intros H. revert i. induction H as [|x l Hx Hl IH]; intros [|i]; simpl; auto.
Qed.

Lemma Forall_replaceAt (A : Type) (P : A -> Prop) (i : nat) (y : A)
      (l : list A) :
  P y -> Forall P l -> Forall P (replaceAt i y l).
Proof.
  intros Hy H. revert i. induction H as [|x l Hx Hl IH]; intros [|i]; simpl; auto.
Qed.

Lemma Forall_nth (A : Type) (P : A -> Prop) (i : nat) (x : A) (l : list A) :
  Forall P l -> nth_error l i = Some x -> P x.
Proof.
  intros H Hn. apply nth_error_In in Hn.
  rewrite Forall_forall in H. auto.
Qed.

Lemma nth_error_last (A : Type) (l : list A) (x : A) :
  nth_error (l ++ [x]) (length l) = Some x.
Proof. induction l; simpl; auto. Qed.

Lemma replaceAt_last (A : Type) (l : list A) (x y : A) :
  replaceAt (length l) y (l ++ [x]) = l ++ [y].
Proof. induction l; simpl; congruence. Qed.

Lemma removeAt_last (A : Type) (l : list A) (x : A) :
  removeAt (length l) (l ++ [x]) = l.
Proof. induction l; simpl; congruence. Qed.

Lemma defaults_keys (registered : string -> Patterns) :
  map (fun m => propertyKey (name m)) (defaults registered) = defaultNames.
Proof. reflexivity. Qed.

Lemma defaults_named (registered : string -> Patterns) :
  Forall (fun m => truthyString (name m) = true
                   /\ startsWithDollar (propertyKey (name m)) = false)
         (defaults registered).
Proof. repeat constructor. Qed.

Lemma defaultNames_NoDup : NoDup defaultNames.
Proof.
  unfold defaultNames.
  repeat (constructor; [simpl; intuition discriminate|]). constructor.
Qed.

Lemma fillDefaults_get (registered : string -> Patterns) r m :
  In m (defaults registered) ->
  JsObject.get (matchers (fillDefaults registered r))
               (propertyKey (name m)) = Some m.
Proof.
  intros Hin. apply adds_get; auto.
  rewrite defaults_keys. apply defaultNames_NoDup.
Qed.

Lemma fillDefaults_present (registered : string -> Patterns) r (n : string) :
  In n defaultNames ->
  JsObject.get (matchers (fillDefaults registered r)) n <> None.
Proof.
  intros Hin. rewrite <- (defaults_keys registered) in Hin.
  apply in_map_iff in Hin. destruct Hin as (m & <- & Hm).
  rewrite fillDefaults_get by assumption. discriminate.
Qed.

Lemma invariant_init (p : ProblemPatternRegistry) : Invariant [] (init p).
Proof.
  unfold Invariant. simpl. split; [|split; [|split]].
  - intros k m H. discriminate.
  - constructor.
  - constructor.
  - repeat split; auto; discriminate.
Qed.

Lemma fillDefaults_namesAreKeys (registered : string -> Patterns) r :
  namesAreKeys (matchers r) ->
  namesAreKeys (matchers (fillDefaults registered r)).
Proof.
  apply adds_namesAreKeys.
  eapply Forall_impl; [|apply defaults_named]. simpl. tauto.
Qed.

Lemma fillDefaults_NoDup (registered : string -> Patterns) r :
  NoDup (JsObject.created (matchers r)) ->
  NoDup (JsObject.created (matchers (fillDefaults registered r))).
Proof. apply adds_NoDup. Qed.

Ltac fields :=
  cbn [registry frames initPending problemPatternRegistry console
       withFrames withRegistry initContinue matchers readyPromise
       pr_ready pr_get isInitContinue].

Lemma frameOk_snoc (trace : list Action) a (f : Frame) :
  frameOk trace f -> frameOk (trace ++ [a]) f.
Proof.
  destruct f as [c|c m]; simpl; rewrite in_app_iff; tauto.
Qed.

Lemma invariant_step (trace : list Action) a w w' :
  Invariant trace w -> step a w = Some w' -> Invariant (trace ++ [a]) w'.
Proof.
  intros (Hkeys & Hnd & Hfr0 & Hpend & Hnone & Hseed) Hstep.
  assert (Hfr : Forall (frameOk (trace ++ [a])) (frames w)).
  { eapply Forall_impl; [|exact Hfr0]. intros f. apply frameOk_snoc. }
  unfold Invariant. rewrite seeded_snoc.
  destruct a as [|registered| |c|i]; cbn [step] in Hstep.
  - injection Hstep as <-. fields. rewrite orb_false_r.
    intuition.
  - injection Hstep as <-. fields. rewrite orb_false_r.
    intuition.
  - destruct (pr_ready (problemPatternRegistry w)) eqn:Hready;
      [|discriminate].
    destruct (initPending w) eqn:Hp; [|discriminate].
    injection Hstep as <-. fields. rewrite orb_true_r.
    split; [now apply fillDefaults_namesAreKeys|].
    split; [now apply fillDefaults_NoDup|].
    split; [assumption|]. split; [reflexivity|].
    split; [discriminate|]. intros _.
    split; [reflexivity|]. split; [assumption|].
    intros n Hn. now apply fillDefaults_present.
  - injection Hstep as <-. cbn [isInitContinue]. rewrite orb_false_r.
    assert (Hcall : In (CallRegister c) (trace ++ [CallRegister c]))
      by (apply in_app_iff; simpl; auto).
    unfold register.
    destruct (truthyString (c_name c)) eqn:Hname; fields.
    + destruct (awaitsPatternRegistry c) eqn:Hawait; fields.
      * split; [assumption|]. split; [assumption|].
        split; [|tauto].
        apply Forall_app. split; auto.
        constructor; [|constructor]. simpl. auto.
      * split; [assumption|]. split; [assumption|].
        split; [|tauto].
        apply Forall_app. split; auto.
        constructor; [|constructor]. simpl. eauto.
    + tauto.
  - cbn [isInitContinue]. rewrite orb_false_r.
    destruct (nth_error (frames w) i) as [[c|c m]|] eqn:Hi; [| |discriminate].
    + destruct (pr_ready (problemPatternRegistry w)) eqn:Hready; [|discriminate].
      injection Hstep as <-. fields.
      destruct (Forall_nth _ Hfr Hi) as (Hname & _ & Hcall).
      split; [assumption|]. split; [assumption|].
      split; [|tauto].
      apply Forall_replaceAt; auto. simpl. eauto.
    + injection Hstep as <-.
      destruct (Forall_nth _ Hfr Hi) as (Hname & [registered ->] & Hcall).
      fields.
      split; [now apply add_namesAreKeys|].
      split; [now apply add_NoDup|].
      split; [now apply Forall_removeAt|].
      split; [assumption|]. split; [assumption|].
      intros Hf. destruct (Hseed Hf) as (H1 & H2 & H3).
      split; [assumption|]. split; [assumption|].
      intros n Hn. apply add_keeps_keys. now apply H3.
Qed.

Lemma run_invariant (p : ProblemPatternRegistry) (trace : list Action) w :
  run trace (init p) = Some w -> Invariant trace w.
Proof.
  apply run_ind with (P := Invariant).
  - apply invariant_init.
  - intros. eapply invariant_step; eauto.
Qed.

Lemma get_plain r (n : string) :
  startsWithDollar n = false -> get r n = JsObject.get (matchers r) n.
Proof. unfold get. now intros ->. Qed.

Lemma get_dollar r (n : string) :
  get r (String "$" n) = JsObject.get (matchers r) n.
Proof. reflexivity. Qed.

Lemma dollar_shape (n : string) :
  startsWithDollar n = true -> n = String "$" (slice1 n).
Proof.
  destruct n as [|a rest]; simpl; [discriminate|].
  intros H. apply Ascii.eqb_eq in H. now subst.
Qed.

Lemma cons_neq (a : ascii) (s : string) : String a s <> s.
Proof.
  intros H. apply (f_equal String.length) in H. simpl in H. lia.
Qed.

(** A stored matcher whose key carries no sigil is among [getAll()]. *)
Lemma getAll_plain r (n : string) m :
  startsWithDollar n = false ->
  JsObject.get (matchers r) n = Some m -> In (Some m) (getAll r).
Proof.
  intros Hn Hget. unfold getAll. apply in_map_iff. exists n. split.
  - now rewrite get_plain.
  - apply JsObjectFacts.keys_In, JsObjectFacts.get_created. congruence.
Qed.

(** X4.  A call of [register] with a name runs to its end when nothing
    else happens in between, provided the pattern registry is ready
    if the call has to wait for it. *)
Lemma register_completes c w :
  truthyString (c_name c) = true ->
  (awaitsPatternRegistry c = true ->
   pr_ready (problemPatternRegistry w) = true) ->
  exists trace w',
    run (CallRegister c :: trace) w = Some w' /\
    registry w' =
      add (getProblemMatcherFromContribution c
             (pr_get (problemPatternRegistry w))) (registry w) /\
    frames w' = frames w.
Proof.
  intros Hname Hready. destruct (awaitsPatternRegistry c) eqn:Hawait.
  - exists [Resume (length (frames w)); Resume (length (frames w))].
    eexists. cbn [run step]. unfold register. rewrite Hname, Hawait.
    cbn [negb]. fields. rewrite nth_error_last, Hready by reflexivity.
    fields. rewrite replaceAt_last, nth_error_last.
    split; [reflexivity|]. fields. rewrite removeAt_last. auto.
  - exists [Resume (length (frames w))].
    eexists. cbn [run step]. unfold register. rewrite Hname, Hawait.
    cbn [negb]. fields. rewrite nth_error_last.
    split; [reflexivity|]. fields. rewrite removeAt_last. auto.
Qed.

Lemma run_app (t1 t2 : list Action) w :
  run (t1 ++ t2) w =
  match run t1 w with
  | Some w1 => run t2 w1
  | None => None
  end.
Proof.
  revert w. induction t1 as [|a t1 IH]; intros w; simpl; auto.
  destruct (step a w); auto.
Qed.

(** No action removes a key from the map. *)
Lemma step_keeps_keys a w w' (n : string) :
  step a w = Some w' ->
  JsObject.get (matchers (registry w)) n <> None ->
  JsObject.get (matchers (registry w')) n <> None.
Proof.
  intros Hstep Hn. destruct a as [|registered| |c|i]; cbn [step] in Hstep.
  - now injection Hstep as <-.
  - now injection Hstep as <-.
  - destruct (pr_ready (problemPatternRegistry w) && initPending w);
      [|discriminate].
    injection Hstep as <-. fields. now apply adds_keep_keys.
  - injection Hstep as <-. unfold register.
    destruct (negb (truthyString (c_name c))); [assumption|].
    now destruct (awaitsPatternRegistry c).
  - destruct (nth_error (frames w) i) as [[c|c m]|]; [| |discriminate].
    + destruct (pr_ready (problemPatternRegistry w)); [|discriminate].
      now injection Hstep as <-.
    + injection Hstep as <-. fields. now apply add_keeps_keys.
Qed.

Lemma run_keeps_keys (trace : list Action) w w' (n : string) :
  run trace w = Some w' ->
  JsObject.get (matchers (registry w)) n <> None ->
  JsObject.get (matchers (registry w')) n <> None.
Proof.
  revert w. induction trace as [|a trace IH]; intros w Hrun Hn; simpl in Hrun.
  - now injection Hrun as <-.
  - destruct (step a w) as [w1|] eqn:E; [|discriminate].
    eapply IH; eauto. eapply step_keeps_keys; eauto.
Qed.

(** C1, as amended.  Once a call [register(c)], made earlier in the
    trace with a non-empty name that does not begin with the sigil, has
    come to its end, [get] of that name returns a matcher whose name is
    the contribution's, then and at any later time; right at the end of
    the call it is the matcher resolved from [c]. *)
Theorem register_then_get (p : ProblemPatternRegistry)
  (trace later : list Action) w (i : nat) c m w' (n : string) :
  run trace (init p) = Some w ->
  nth_error (frames w) i = Some (AwaitingMatcher c m) ->
  run (Resume i :: later) w = Some w' ->
  c_name c = Some n ->
  startsWithDollar n = false ->
  In (CallRegister c) trace /\
  (exists m', get (registry w') n = Some m' /\ name m' = c_name c) /\
  (later = [] -> get (registry w') n = Some m).
Proof.
  intros Hrun Hi Hlater Hn Hdollar.
  destruct (run_invariant _ _ Hrun) as (_ & _ & Hfr & _).
  destruct (Forall_nth _ Hfr Hi) as (Hname & [registered ->] & Hcall).
  assert (Hall : run (trace ++ Resume i :: later) (init p) = Some w')
    by now rewrite run_app, Hrun.
  destruct (run_invariant _ _ Hall) as (Hkeys & _).
  cbn [run step] in Hlater. rewrite Hi in Hlater.
  set (w1 := withFrames _ _) in Hlater.
  assert (H1 : JsObject.get (matchers (registry w1)) n
               = Some (getProblemMatcherFromContribution c registered)).
  { unfold w1, add. fields. rewrite resolved_name, Hn.
    apply JsObjectFacts.get_set_same. }
  split; [assumption|]. split.
  - assert (H2 : JsObject.get (matchers (registry w')) n <> None).
    { apply (run_keeps_keys later w1); [assumption|congruence]. }
    destruct (JsObject.get (matchers (registry w')) n) as [m'|] eqn:E;
      [|congruence].
    exists m'. rewrite get_plain by assumption.
    split; [assumption|]. rewrite Hn. now apply Hkeys.
  - intros ->. injection Hlater as <-. now rewrite get_plain.
Qed.

(** C3, as amended.  A pattern given as a non-empty string is a name:
    [register] stops at the await of the pattern registry, goes on
    only once the registry is ready, and then looks the name up; an
    array of patterns is taken over whole and in order, a single
    pattern alone, and nothing when the name is not registered.  The
    empty string is not looked up: resolution does not wait and the
    matcher has no pattern. *)
Theorem pattern_name_resolution c (n : string)
  (registered : string -> Patterns) :
  c_pattern c = Some (PatternName n) ->
  (n <> "" ->
     (forall w, truthyString (c_name c) = true ->
        step (CallRegister c) w
        = Some (withFrames w (frames w ++ [AwaitingPatterns c]))) /\
     (forall w i, nth_error (frames w) i = Some (AwaitingPatterns c) ->
        step (Resume i) w
        = if pr_ready (problemPatternRegistry w)
          then Some (withFrames w
                 (replaceAt i
                    (AwaitingMatcher c
                       (getProblemMatcherFromContribution c
                          (pr_get (problemPatternRegistry w))))
                    (frames w)))
          else None) /\
     (forall ps, registered n = PatternArray ps ->
        pattern (getProblemMatcherFromContribution c registered)
        = PatternArray ps) /\
     (forall p, registered n = OnePattern p ->
        pattern (getProblemMatcherFromContribution c registered)
        = PatternArray [p]) /\
     (registered n = NoPattern ->
        pattern (getProblemMatcherFromContribution c registered)
        = PatternArray [])) /\
  (n = "" ->
     awaitsPatternRegistry c = false /\
     pattern (getProblemMatcherFromContribution c registered)
     = PatternArray []).
Proof.
  intros Hc. split.
  - intros Hn. apply truthyString_Some in Hn.
    assert (Hawait : awaitsPatternRegistry c = true)
      by (unfold awaitsPatternRegistry; now rewrite Hc).
    split; [|split].
    + intros w Hname. cbn [step]. unfold register.
      now rewrite Hname, Hawait.
    + intros w i Hi. cbn [step]. now rewrite Hi.
    + unfold getProblemMatcherFromContribution, resolvePatterns.
      rewrite Hc, Hn. cbn [pattern assemble].
      split; [|split]; intros; rewrite H; reflexivity.
  - intros ->. unfold awaitsPatternRegistry,
      getProblemMatcherFromContribution, resolvePatterns.
    rewrite Hc. simpl. auto.
Qed.

(** C4.  [register] of a contribution whose name is absent or empty
    returns at once: one error line is written to the console,
    nothing else changes, no work is left behind, and [getAll()] is
    as before. *)
Theorem register_unnamed c w :
  c_name c = None \/ c_name c = Some "" ->
  exists w',
    step (CallRegister c) w = Some w' /\
    console w' = console w ++ [nameError] /\
    registry w' = registry w /\
    frames w' = frames w /\
    initPending w' = initPending w /\
    problemPatternRegistry w' = problemPatternRegistry w /\
    getAll (registry w') = getAll (registry w).
Proof.
  intros Hname. apply truthyString_false in Hname.
  eexists. cbn [step]. unfold register. rewrite Hname. cbn [negb].
  repeat split.
Qed.

(** C5, as amended.  [get] strips exactly one leading sigil: a name
    with the sigil put in front is looked up as the name itself, so
    for a name that does not begin with the sigil the two spellings
    give the same result; [get] is total and returns nothing when the
    map has no entry under the stripped name. *)
Theorem get_sigil r (n : string) :
  get r (String "$" n) = JsObject.get (matchers r) n /\
  (startsWithDollar n = false -> get r (String "$" n) = get r n) /\
  (startsWithDollar n = true ->
     get r n = JsObject.get (matchers r) (slice1 n)) /\
  (JsObject.get (matchers r) (if startsWithDollar n then slice1 n else n)
   = None -> get r n = None).
Proof.
  split; [reflexivity|]. split; [|split].
  - intros H. rewrite get_dollar. symmetry. now apply get_plain.
  - intros H. unfold get. now rewrite H.
  - unfold get. now destruct (startsWithDollar n).
Qed.

Lemma defaultNames_plain (n : string) :
  In n defaultNames -> startsWithDollar n = false.
Proof.
  unfold defaultNames. simpl.
  intros H. repeat (destruct H as [<-|H]; [reflexivity|]). destruct H.
Qed.


(** The default names stay registered from the seeding on. *)
Lemma defaults_stay (p : ProblemPatternRegistry) (trace : list Action) w
      (n : string) :
  run trace (init p) = Some w -> seeded trace = true ->
  In n defaultNames ->
  exists m, In (Some m) (getAll (registry w)) /\ name m = Some n.
Proof.
  intros Hrun Hs Hn.
  destruct (run_invariant _ _ Hrun) as (Hkeys & _ & _ & Hp & _ & Hseed).
  rewrite Hs in Hp. destruct (Hseed Hp) as (_ & _ & Hdef).
  specialize (Hdef n Hn).
  destruct (JsObject.get (matchers (registry w)) n) as [m|] eqn:E;
    [|congruence].
  exists m. split; [|now apply Hkeys].
  eapply getAll_plain; eauto. now apply defaultNames_plain.
Qed.

(** C8.  The keys of the map are pairwise distinct and every stored
    matcher sits under its own name.  When a call [register(c)] whose
    name is already a key comes to its end, the entry under that name
    becomes the matcher resolved from [c]; the keys, the other entries
    and the length of [getAll()] stay as they were, and nothing is
    written to the console. *)
Theorem reregister_overwrites (p : ProblemPatternRegistry)
  (trace : list Action) w (i : nat) c m w' (n : string) :
  run trace (init p) = Some w ->
  nth_error (frames w) i = Some (AwaitingMatcher c m) ->
  step (Resume i) w = Some w' ->
  c_name c = Some n ->
  JsObject.get (matchers (registry w)) n <> None ->
  length (getAll (registry w')) = length (getAll (registry w)) /\
  JsObject.keys (matchers (registry w'))
  = JsObject.keys (matchers (registry w)) /\
  JsObject.get (matchers (registry w')) n = Some m /\
  (exists registered,
      m = getProblemMatcherFromContribution c registered) /\
  (forall k, k <> n ->
     JsObject.get (matchers (registry w')) k
     = JsObject.get (matchers (registry w)) k) /\
  NoDup (JsObject.keys (matchers (registry w'))) /\
  namesAreKeys (matchers (registry w')) /\
  console w' = console w.
Proof.
  intros Hrun Hi Hstep Hn Hold.
  assert (Hall : run (trace ++ [Resume i]) (init p) = Some w')
    by now rewrite run_snoc, Hrun.
  destruct (run_invariant _ _ Hall) as (Hkeys' & Hnd' & _).
  destruct (run_invariant _ _ Hrun) as (_ & _ & Hfr & _).
  destruct (Forall_nth _ Hfr Hi) as (Hname & [registered Hm] & _).
  cbn [step] in Hstep. rewrite Hi in Hstep. injection Hstep as <-.
  assert (Hkey : propertyKey (name m) = n)
    by now rewrite Hm, resolved_name, Hn.
  assert (Hk : JsObject.keys (matchers (add m (registry w)))
               = JsObject.keys (matchers (registry w))).
  { unfold add. fields. rewrite Hkey.
    now apply JsObjectFacts.keys_set_old. }
  fields.
  split; [unfold getAll; now rewrite !length_map, Hk|].
  split; [exact Hk|].
  split; [unfold add; fields; rewrite Hkey;
          apply JsObjectFacts.get_set_same|].
  split; [eauto|].
  split; [intros k Hne; unfold add; fields; rewrite Hkey;
          apply JsObjectFacts.get_set_other; congruence|].
  split; [now apply JsObjectFacts.keys_NoDup|].
  split; [exact Hkeys'|reflexivity].
Qed.

(** C10.  [onReady()] returns the field [readyPromise]: it is
    undefined, not a pending promise, as long as the callback of
    [init] has not run, which is the case at least until the pattern
    registry is ready; once the callback has run, the defaults are in
    the map and [onReady()] returns a resolved promise. *)
Theorem onReady_states (p : ProblemPatternRegistry)
  (trace : list Action) w :
  run trace (init p) = Some w ->
  (seeded trace = false -> onReady (registry w) = None) /\
  (seeded trace = true ->
     onReady (registry w) = Some Resolved /\
     forall n, In n defaultNames ->
               JsObject.get (matchers (registry w)) n <> None) /\
  (pr_ready (problemPatternRegistry w) = false -> seeded trace = false) /\
  onReady (registry w) <> Some Pending.
Proof.
  intros Hrun.
  destruct (run_invariant _ _ Hrun) as (_ & _ & _ & Hp & Hnone & Hseed).
  unfold onReady. destruct (seeded trace); cbn [negb] in Hp.
  - destruct (Hseed Hp) as (Hr & Hready & Hdef).
    split; [discriminate|]. split; [auto|].
    split; [congruence|]. rewrite Hr. discriminate.
  - rewrite (Hnone Hp).
    split; [reflexivity|]. split; [discriminate|].
    split; [reflexivity|discriminate].
Qed.

(** C9, as amended.  For a matcher stored under a name that begins
    with the sigil, the element of [getAll()] at the place of that key
    is not that matcher but what the map holds under the name without
    its first character, undefined when there is no such entry; the
    matcher itself is among [getAll()] exactly when the same name
    with one more sigil in front is a key too. *)
Theorem getAll_sigil (p : ProblemPatternRegistry) (trace : list Action)
  w (n : string) m :
  run trace (init p) = Some w ->
  startsWithDollar n = true ->
  JsObject.get (matchers (registry w)) n = Some m ->
  (exists i,
      nth_error (JsObject.keys (matchers (registry w))) i = Some n /\
      nth_error (getAll (registry w)) i
      = Some (JsObject.get (matchers (registry w)) (slice1 n)) /\
      JsObject.get (matchers (registry w)) (slice1 n) <> Some m /\
      (JsObject.get (matchers (registry w)) (slice1 n) = None ->
       nth_error (getAll (registry w)) i = Some None)) /\
  (In (Some m) (getAll (registry w)) <->
   JsObject.get (matchers (registry w)) (String "$" n) <> None).
Proof.
  intros Hrun Hdollar Hget.
  destruct (run_invariant _ _ Hrun) as (Hkeys & _).
  pose proof (Hkeys _ _ Hget) as Hname.
  split.
  - assert (Hin : In n (JsObject.keys (matchers (registry w)))).
    { apply JsObjectFacts.keys_In, JsObjectFacts.get_created. congruence. }
    destruct (In_nth_error _ _ Hin) as [i Hi]. exists i.
    assert (Hnth : nth_error (getAll (registry w)) i
                   = Some (JsObject.get (matchers (registry w)) (slice1 n))).
    { unfold getAll. rewrite nth_error_map, Hi. simpl.
      unfold get. now rewrite Hdollar. }
    split; [assumption|]. split; [assumption|]. split.
    + intros Hsame. apply Hkeys in Hsame.
      rewrite Hname in Hsame. injection Hsame as Hsame.
      rewrite (dollar_shape _ Hdollar) in Hsame at 1.
      now apply cons_neq in Hsame.
    + intros Hnone. now rewrite Hnth, Hnone.
  - split.
    + intros Hin. unfold getAll in Hin. apply in_map_iff in Hin.
      destruct Hin as (k & Hk & Hkin). unfold get in Hk.
      apply JsObjectFacts.keys_In, JsObjectFacts.get_created in Hkin.
      destruct (startsWithDollar k) eqn:Ek.
      * pose proof (Hkeys _ _ Hk) as Hk'. rewrite Hname in Hk'.
        injection Hk' as ->. now rewrite <- (dollar_shape _ Ek).
      * pose proof (Hkeys _ _ Hk) as Hk'. rewrite Hname in Hk'.
        injection Hk' as ->. congruence.
    + intros Hkey. unfold getAll. apply in_map_iff.
      exists (String "$" n). split.
      * now rewrite get_dollar.
      * now apply JsObjectFacts.keys_In, JsObjectFacts.get_created.
Qed.

End Registry.

(** ** The theorems at work on sample data *)
Section Samples.
Import SpecCommon.

Lemma fileLocation_cases_witness :
  FileLocationKind_fromString "absolute" = Some Absolute /\
  FileLocationKind_fromString "relative" = Some Relative /\
  getFileLocationKindAndPrefix
    (withFileLocation "x" (LocationArray ["relative"; "/src"]))
  = (Relative, "/src") /\
  getFileLocationKindAndPrefix
    (withFileLocation "x" (LocationArray ["relative"]))
  = (Relative, "${workspaceFolder}").
Proof.
  split; [reflexivity|]. split; [reflexivity|].
  destruct (fileLocation_cases (common := common) eq_refl eq_refl)
    as (_ & _ & _ & Hpair & _ & Hrel).
  split.
  - apply Hpair with (x := "relative"); [reflexivity|reflexivity|discriminate].
  - apply Hrel. reflexivity.
Defined.

Lemma applyTo_default_witness :
  ApplyToKind_fromString None = None /\
  applyTo (getProblemMatcherFromContribution
             (withApplyTo "x" (Some "everywhere")) samplePatterns)
  = allDocuments.
Proof.
  split; [reflexivity|].
  apply (applyTo_default (common := common) eq_refl).
  right. reflexivity.
Defined.

Lemma pattern_name_resolution_witness :
  c_pattern (withPattern "m" (PatternName "tsc"))
  = Some (PatternName "tsc") /\
  pattern (getProblemMatcherFromContribution
             (withPattern "m" (PatternName "tsc")) samplePatterns)
  = PatternArray [pat "a"; pat "b"; pat "c"].
Proof.
  split; [reflexivity|].
  destruct (pattern_name_resolution
              (withPattern "m" (PatternName "tsc")) samplePatterns eq_refl)
    as [Hname _].
  destruct Hname as (_ & _ & Harray & _); [discriminate|].
  apply Harray. reflexivity.
Defined.

(** C3, the claim as it stands fails on the empty string: the pattern
    registry holds a pattern under that name, but resolution neither
    waits for the registry (the call of [register] ends while the
    registry is not ready) nor looks the name up. *)
Lemma pattern_empty_name_counterexample :
  c_pattern (withPattern "m" (PatternName "")) = Some (PatternName "") /\
  pr_get oddRegistry "" = PatternArray [pat "a"] /\
  pr_ready oddRegistry = false /\
  run [CallRegister (withPattern "m" (PatternName "")); Resume 0]
      (init oddRegistry)
  = Some (after [CallRegister (withPattern "m" (PatternName "")); Resume 0]
                oddRegistry) /\
  option_map (fun m => pattern m)
    (get (registry (after [CallRegister (withPattern "m" (PatternName ""));
                           Resume 0] oddRegistry)) "m")
  = Some (PatternArray []).
Proof. repeat split. Qed.

(** C1, the claim as it stands fails on a name that begins with the
    sigil: the call of [register] ends, the matcher is in the map
    under its name, and [get] of that name returns nothing. *)
Lemma register_then_get_counterexample :
  c_name (named (Some "$foo")) = Some "$foo" /\
  run [CallRegister (named (Some "$foo")); Resume 0] (init readyRegistry)
  = Some (after [CallRegister (named (Some "$foo")); Resume 0]
                readyRegistry) /\
  frames (after [CallRegister (named (Some "$foo")); Resume 0]
                readyRegistry) = [] /\
  get (registry (after [CallRegister (named (Some "$foo")); Resume 0]
                       readyRegistry)) "$foo" = None.
Proof. repeat split. Qed.

Lemma register_then_get_witness :
  run [CallRegister (named (Some "x"))] (init readyRegistry)
  = Some (after [CallRegister (named (Some "x"))] readyRegistry) /\
  get (registry (after [CallRegister (named (Some "x")); Resume 0]
                       readyRegistry)) "x"
  = Some (getProblemMatcherFromContribution (named (Some "x"))
                                            samplePatterns).
Proof.
  split; [reflexivity|].
  refine (proj2 (proj2
    (@register_then_get common readyRegistry
       [CallRegister (named (Some "x"))] []
       (after [CallRegister (named (Some "x"))] readyRegistry)
       0 (named (Some "x"))
       (getProblemMatcherFromContribution (named (Some "x"))
                                          samplePatterns)
       (after [CallRegister (named (Some "x")); Resume 0] readyRegistry)
       "x" eq_refl eq_refl eq_refl eq_refl eq_refl)) eq_refl).
Defined.

Lemma register_unnamed_witness :
  c_name (named (Some "")) = Some "" /\
  exists w',
    step (CallRegister (named (Some ""))) (init readyRegistry) = Some w' /\
    console w' = [nameError] /\
    getAll (registry w') = [].
Proof.
  split; [reflexivity|].
  destruct (register_unnamed (named (Some "")) (init readyRegistry)
                             (or_intror eq_refl))
    as (w' & Hstep & Hlog & _ & _ & _ & _ & Hall).
  exists w'. auto.
Defined.

(** C5, the claim as it stands fails on a registered name that begins
    with the sigil: with one more sigil in front [get] returns the
    matcher, with the name as it is [get] returns nothing. *)
Lemma get_sigil_counterexample :
  JsObject.get
    (matchers (registry (after [CallRegister (named (Some "$a")); Resume 0]
                               readyRegistry))) "$a"
  = Some (getProblemMatcherFromContribution (named (Some "$a"))
                                            samplePatterns) /\
  get (registry (after [CallRegister (named (Some "$a")); Resume 0]
                       readyRegistry)) "$$a"
  = Some (getProblemMatcherFromContribution (named (Some "$a"))
                                            samplePatterns) /\
  get (registry (after [CallRegister (named (Some "$a")); Resume 0]
                       readyRegistry)) "$a"
  = None.
Proof. repeat split. Qed.

Lemma get_sigil_witness :
  startsWithDollar "go" = false /\
  get (registry (after [InitContinue] readyRegistry)) "$go"
  = get (registry (after [InitContinue] readyRegistry)) "go".
Proof.
  split; [reflexivity|].
  apply (get_sigil (registry (after [InitContinue] readyRegistry)) "go").
  reflexivity.
Defined.


Lemma reregister_overwrites_witness :
  run [CallRegister (named (Some "x")); Resume 0;
       CallRegister (withFileLocation "x" (LocationArray ["absolute"]))]
      (init readyRegistry)
  = Some (after [CallRegister (named (Some "x")); Resume 0;
                 CallRegister
                   (withFileLocation "x" (LocationArray ["absolute"]))]
                readyRegistry) /\
  option_map (fun m => fileLocation m)
    (JsObject.get
       (matchers (registry
          (after [CallRegister (named (Some "x")); Resume 0;
                  CallRegister
                    (withFileLocation "x" (LocationArray ["absolute"]))]
                 readyRegistry))) "x")
  = Some Relative /\
  length (getAll (registry
    (after [CallRegister (named (Some "x")); Resume 0;
            CallRegister (withFileLocation "x" (LocationArray ["absolute"]));
            Resume 0] readyRegistry))) = 1 /\
  option_map (fun m => fileLocation m)
    (JsObject.get
       (matchers (registry
          (after [CallRegister (named (Some "x")); Resume 0;
                  CallRegister
                    (withFileLocation "x" (LocationArray ["absolute"]));
                  Resume 0] readyRegistry))) "x")
  = Some Absolute /\
  console
    (after [CallRegister (named (Some "x")); Resume 0;
            CallRegister (withFileLocation "x" (LocationArray ["absolute"]));
            Resume 0] readyRegistry) = [].
Proof.
  split; [reflexivity|]. split; [reflexivity|].
  destruct (@reregister_overwrites common readyRegistry
    [CallRegister (named (Some "x")); Resume 0;
     CallRegister (withFileLocation "x" (LocationArray ["absolute"]))]
    (after [CallRegister (named (Some "x")); Resume 0;
            CallRegister (withFileLocation "x" (LocationArray ["absolute"]))]
           readyRegistry)
    0 (withFileLocation "x" (LocationArray ["absolute"]))
    (getProblemMatcherFromContribution
       (withFileLocation "x" (LocationArray ["absolute"])) samplePatterns)
    (after [CallRegister (named (Some "x")); Resume 0;
            CallRegister (withFileLocation "x" (LocationArray ["absolute"]));
            Resume 0] readyRegistry)
    "x" eq_refl eq_refl eq_refl eq_refl)
    as (Hlen & _ & Hget & _ & _ & _ & _ & Hcon).
  - discriminate.
  - split; [rewrite Hlen; reflexivity|].
    split; [rewrite Hget; reflexivity|]. rewrite Hcon. reflexivity.
Defined.

(** C9, the claim as it stands fails when the name with one more
    sigil in front is registered too: the matcher registered under
    the name with one sigil is then an element of [getAll()]. *)
Lemma getAll_sigil_counterexample :
  run [CallRegister (named (Some "$x")); Resume 0;
       CallRegister (named (Some "$$x")); Resume 0] (init readyRegistry)
  = Some (after [CallRegister (named (Some "$x")); Resume 0;
                 CallRegister (named (Some "$$x")); Resume 0]
                readyRegistry) /\
  JsObject.get
    (matchers (registry
       (after [CallRegister (named (Some "$x")); Resume 0;
               CallRegister (named (Some "$$x")); Resume 0]
              readyRegistry))) "$x"
  = Some (getProblemMatcherFromContribution (named (Some "$x"))
                                            samplePatterns) /\
  getAll (registry
       (after [CallRegister (named (Some "$x")); Resume 0;
               CallRegister (named (Some "$$x")); Resume 0]
              readyRegistry))
  = [None;
     Some (getProblemMatcherFromContribution (named (Some "$x"))
                                             samplePatterns)].
Proof. repeat split. Qed.

Lemma getAll_sigil_witness :
  run [CallRegister (named (Some "$x")); Resume 0] (init readyRegistry)
  = Some (after [CallRegister (named (Some "$x")); Resume 0]
                readyRegistry) /\
  startsWithDollar "$x" = true /\
  JsObject.get
    (matchers (registry (after [CallRegister (named (Some "$x")); Resume 0]
                               readyRegistry))) "$x"
  = Some (getProblemMatcherFromContribution (named (Some "$x"))
                                            samplePatterns) /\
  ~ In (Some (getProblemMatcherFromContribution (named (Some "$x"))
                                                samplePatterns))
       (getAll (registry
          (after [CallRegister (named (Some "$x")); Resume 0]
                 readyRegistry))).
Proof.
  split; [reflexivity|]. split; [reflexivity|]. split; [reflexivity|].
  destruct (@getAll_sigil common readyRegistry
    [CallRegister (named (Some "$x")); Resume 0]
    (after [CallRegister (named (Some "$x")); Resume 0] readyRegistry)
    "$x"
    (getProblemMatcherFromContribution (named (Some "$x")) samplePatterns)
    eq_refl eq_refl eq_refl) as (_ & Hiff).
  intros Hin. apply Hiff in Hin. apply Hin. reflexivity.
Defined.

Lemma onReady_states_witness :
  run [PatternsReady; InitContinue] (init pendingRegistry)
  = Some (after [PatternsReady; InitContinue] pendingRegistry) /\
  onReady (registry (after [PatternsReady; InitContinue] pendingRegistry))
  = Some Resolved /\
  run [CallRegister (named (Some "x")); Resume 0] (init pendingRegistry)
  = Some (after [CallRegister (named (Some "x")); Resume 0]
                pendingRegistry) /\
  onReady (registry (after [CallRegister (named (Some "x")); Resume 0]
                           pendingRegistry))
  = None.
Proof.
  split; [reflexivity|].
  split.
  - destruct (@onReady_states common pendingRegistry
      [PatternsReady; InitContinue]
      (after [PatternsReady; InitContinue] pendingRegistry) eq_refl)
      as (_ & Hseeded & _).
    apply Hseeded. reflexivity.
  - split; [reflexivity|].
    destruct (@onReady_states common pendingRegistry
      [CallRegister (named (Some "x")); Resume 0]
      (after [CallRegister (named (Some "x")); Resume 0] pendingRegistry)
      eq_refl) as (Hbefore & _).
    apply Hbefore. reflexivity.
Defined.

End Samples.


(** ** More on the registry *)
Section RegistryMore.
Context {common : Common}.
Implicit Types (c : ProblemMatcherContribution) (w : World)
  (r : ProblemMatcherRegistry) (m : ProblemMatcher).

Tactic Notation "projections" :=
  cbn [registry frames initPending problemPatternRegistry console
       withFrames withRegistry initContinue matchers readyPromise
       pr_ready pr_get].
Tactic Notation "projections" "in" hyp(H) :=
  cbn [registry frames initPending problemPatternRegistry console
       withFrames withRegistry initContinue matchers readyPromise
       pr_ready pr_get] in H.

Lemma get_created_values (V : Type) (o : JsObject.t V) :
  NoDup (JsObject.created o) ->
  map (JsObject.get o) (JsObject.created o)
  = map (fun kv => Some (snd kv)) o.
Proof.
  induction o as [|[k v] rest IH]; intros Hnd; simpl; auto.
  inversion Hnd as [|? ? Hout Hnd']; subst.
  rewrite String.eqb_refl. f_equal.
  rewrite <- IH by assumption. apply map_ext_in.
  intros k' Hk'. destruct (String.eqb_spec k k') as [->|]; [|reflexivity].
  contradiction.
Qed.

(** X1.  When no registered name begins with the sigil, [getAll()] holds
    the stored matchers, each of them once and none undefined. *)
Theorem getAll_permutation (p : ProblemPatternRegistry)
  (trace : list Action) w :
  run trace (init p) = Some w ->
  (forall k, In k (JsObject.created (matchers (registry w))) ->
             startsWithDollar k = false) ->
  Permutation (getAll (registry w))
              (map (fun kv => Some (snd kv)) (matchers (registry w))).
Proof.
  intros Hrun Hplain.
  destruct (run_invariant _ _ Hrun) as (_ & Hnd & _).
  rewrite <- (get_created_values _ Hnd). unfold getAll.
  transitivity (map (JsObject.get (matchers (registry w)))
                    (JsObject.keys (matchers (registry w)))).
  - apply Permutation_refl'. apply map_ext_in. intros k Hk.
    apply get_plain, Hplain. now apply JsObjectFacts.keys_In.
  - apply Permutation_map, JsObjectFacts.keys_perm.
Qed.

(** X2.  The prefix [getFileLocationKindAndPrefix] returns is never empty;
    it is the workspace folder unless the kind is relative; and the
    array form never gives the auto-detecting kind. *)
Theorem filePrefix_shape c :
  snd (getFileLocationKindAndPrefix c) <> "" /\
  (fst (getFileLocationKindAndPrefix c) <> Relative ->
   snd (getFileLocationKindAndPrefix c) = "${workspaceFolder}") /\
  (forall items, c_fileLocation c = Some (LocationArray items) ->
     fst (getFileLocationKindAndPrefix c) <> AutoDetect).
Proof.
  assert (Hdefault : forall k : FileLocationKind,
            snd (k, workspaceFolder) <> "" /\
            (fst (k, workspaceFolder) <> Relative ->
             snd (k, workspaceFolder) = "${workspaceFolder}")).
  { intros k. split; [discriminate|reflexivity]. }
  unfold getFileLocationKindAndPrefix.
  destruct (c_fileLocation c) as [[token|items]|].
  - assert (Hno : forall (items : list string) (k : FileLocationKind),
              Some (LocationToken token) = Some (LocationArray items) ->
              k <> AutoDetect) by (intros; discriminate).
    destruct (FileLocationKind_fromString token) as [k|].
    + destruct (truthyNumber (FileLocationKind_value k)).
      * destruct k; cbn [FileLocationKind_eqb];
          (split; [apply Hdefault|split; [apply Hdefault|]]);
          intros; discriminate.
      * split; [apply Hdefault|split; [apply Hdefault|]].
        intros; discriminate.
    + split; [apply Hdefault|split; [apply Hdefault|]].
      intros; discriminate.
  - cut (snd (match items with
               | [] => (Relative, workspaceFolder)
               | first :: _ =>
                   if Nat.eqb (length items) 1
                      && isKind (FileLocationKind_fromString first) Absolute
                   then (Absolute, workspaceFolder)
                   else if Nat.eqb (length items) 2
                           && isKind (FileLocationKind_fromString first)
                                     Relative
                           && truthyString (nth_error items 1)
                   then (Relative, nth 1 items workspaceFolder)
                   else (Relative, workspaceFolder)
               end) <> "" /\
         (fst (match items with
               | [] => (Relative, workspaceFolder)
               | first :: _ =>
                   if Nat.eqb (length items) 1
                      && isKind (FileLocationKind_fromString first) Absolute
                   then (Absolute, workspaceFolder)
                   else if Nat.eqb (length items) 2
                           && isKind (FileLocationKind_fromString first)
                                     Relative
                           && truthyString (nth_error items 1)
                   then (Relative, nth 1 items workspaceFolder)
                   else (Relative, workspaceFolder)
               end) = Relative \/
          match items with
               | [] => (Relative, workspaceFolder)
               | first :: _ =>
                   if Nat.eqb (length items) 1
                      && isKind (FileLocationKind_fromString first) Absolute
                   then (Absolute, workspaceFolder)
                   else if Nat.eqb (length items) 2
                           && isKind (FileLocationKind_fromString first)
                                     Relative
                           && truthyString (nth_error items 1)
                   then (Relative, nth 1 items workspaceFolder)
                   else (Relative, workspaceFolder)
               end = (Absolute, workspaceFolder))).
    { intros (H1 & [H2|H2]).
      - split; [exact H1|]. split; [congruence|].
        intros _ _. rewrite H2. discriminate.
      - split; [exact H1|]. rewrite H2. split; [reflexivity|].
        intros _ _. discriminate. }
    destruct items as [|x [|y rest]].
    + split; [discriminate|auto].
    + cbn [length Nat.eqb andb].
      destruct (isKind (FileLocationKind_fromString x) Absolute);
        (split; [discriminate|auto]).
    + cbn [length Nat.eqb andb nth_error nth].
      destruct (Nat.eqb (length rest) 0
                && isKind (FileLocationKind_fromString x) Relative
                && truthyString (Some y)) eqn:E.
      * apply andb_prop in E. destruct E as [_ Hy].
        apply truthyString_Some in Hy. split; [exact Hy|auto].
      * split; [discriminate|auto].
  - split; [apply Hdefault|split; [apply Hdefault|]].
    intros; discriminate.
Qed.

(** X3.  A contribution whose pattern is not a non-empty name is resolved
    without the pattern registry: the matcher is the same whatever the
    registry holds, and a call of [register] with it comes to its end
    after one turn of the event loop, ready registry or not. *)
Theorem register_without_lookup c w :
  awaitsPatternRegistry c = false ->
  truthyString (c_name c) = true ->
  (forall g1 g2 : string -> Patterns,
      getProblemMatcherFromContribution c g1
      = getProblemMatcherFromContribution c g2) /\
  forall g : string -> Patterns,
    run [CallRegister c; Resume (length (frames w))] w
    = Some (withRegistry w
              (add (getProblemMatcherFromContribution c g) (registry w))).
Proof.
  intros Hawait Hname.
  assert (Hind : forall g1 g2 : string -> Patterns,
             getProblemMatcherFromContribution c g1
             = getProblemMatcherFromContribution c g2).
  { intros g1 g2. unfold getProblemMatcherFromContribution. f_equal.
    unfold resolvePatterns. unfold awaitsPatternRegistry in Hawait.
    destruct (c_pattern c) as [[n|q|qs]|]; auto. now rewrite Hawait. }
  split; [exact Hind|]. intros g.
  cbn [run step]. unfold register. rewrite Hname, Hawait. cbn [negb].
  projections. rewrite nth_error_last. projections. rewrite removeAt_last.
  rewrite (Hind _ g). destruct w; reflexivity.
Qed.

(** X5.  Seeding puts each default under its name, whatever was registered
    under that name before, and leaves every other entry as it was. *)
Theorem seeding_overwrites w w' :
  step InitContinue w = Some w' ->
  (forall d, In d (defaults (pr_get (problemPatternRegistry w))) ->
     get (registry w') (propertyKey (name d)) = Some d) /\
  (forall k, ~ In k defaultNames ->
     JsObject.get (matchers (registry w')) k
     = JsObject.get (matchers (registry w)) k).
Proof.
  cbn [step]. intros Hstep.
  destruct (pr_ready (problemPatternRegistry w) && initPending w);
    [|discriminate].
  injection Hstep as <-. split.
  - intros d Hd.
    pose proof (defaults_named (pr_get (problemPatternRegistry w))) as Hn.
    rewrite Forall_forall in Hn. destruct (Hn d Hd) as [_ Hplain].
    rewrite get_plain by assumption. projections. now apply fillDefaults_get.
  - intros k Hk. projections. apply adds_get_other.
    now rewrite defaults_keys.
Qed.

(** X6.  Nothing is ever taken out of the registry: a name for which [get]
    returns a matcher keeps returning one after any further actions. *)
Theorem get_stays_defined (trace : list Action) w w' (n : string) :
  run trace w = Some w' ->
  get (registry w) n <> None ->
  get (registry w') n <> None.
Proof.
  unfold get. intros Hrun.
  destruct (startsWithDollar n); now apply (run_keeps_keys trace w).
Qed.

(** X7.  The console holds one error line for each call of [register] that
    came without a name, and nothing else. *)
Theorem console_accounting (p : ProblemPatternRegistry)
  (trace : list Action) w :
  run trace (init p) = Some w ->
  console w = repeat nameError (length (filter isUnnamedCall trace)).
Proof.
  intros Hrun.
  apply (run_ind (fun tr w0 =>
           console w0 = repeat nameError (length (filter isUnnamedCall tr))))
    with (p := p); [reflexivity| |exact Hrun].
  clear. intros tr w a w' IH Hstep.
  rewrite filter_app, length_app, repeat_app, <- IH.
  destruct a as [|registered| |c|i]; cbn [step] in Hstep.
  - injection Hstep as <-. simpl. now rewrite app_nil_r.
  - injection Hstep as <-. simpl. now rewrite app_nil_r.
  - destruct (pr_ready (problemPatternRegistry w) && initPending w);
      [|discriminate].
    injection Hstep as <-. simpl. now rewrite app_nil_r.
  - injection Hstep as <-. unfold register. cbn [filter isUnnamedCall].
    destruct (negb (truthyString (c_name c))); simpl.
    + reflexivity.
    + destruct (awaitsPatternRegistry c); simpl; now rewrite app_nil_r.
  - destruct (nth_error (frames w) i) as [[c|c m]|]; [| |discriminate].
    + destruct (pr_ready (problemPatternRegistry w)); [|discriminate].
      injection Hstep as <-. simpl. now rewrite app_nil_r.
    + injection Hstep as <-. simpl. now rewrite app_nil_r.
Qed.

Lemma Provenance_snoc (trace : list Action) a m :
  Provenance trace m -> Provenance (trace ++ [a]) m.
Proof.
  intros [H|(c & g & Hin & ->)]; [left; exact H|right].
  exists c, g. split; [|reflexivity]. apply in_app_iff. auto.
Qed.

Lemma get_set_inv (V : Type) (o : JsObject.t V) (key k : string) (v x : V) :
  JsObject.get (JsObject.set o key v) k = Some x ->
  x = v \/ JsObject.get o k = Some x.
Proof.
  destruct (string_dec key k) as [<-|Hne].
  - rewrite JsObjectFacts.get_set_same. intros [= <-]. auto.
  - rewrite JsObjectFacts.get_set_other by assumption. auto.
Qed.

Lemma adds_get_inv (ms : list NamedProblemMatcher) r (k : string) m :
  JsObject.get (matchers (fold_left (fun acc m => add m acc) ms r)) k
  = Some m ->
  In m ms \/ JsObject.get (matchers r) k = Some m.
Proof.
  revert r. induction ms as [|m0 ms IH]; intros r; simpl; auto.
  intros H. apply IH in H. destruct H as [H|H]; auto.
  simpl in H. apply get_set_inv in H. destruct H as [->|H]; auto.
Qed.

Lemma provenance_invariant (p : ProblemPatternRegistry)
  (trace : list Action) w :
  run trace (init p) = Some w ->
  forall k m, JsObject.get (matchers (registry w)) k = Some m ->
              Provenance trace m.
Proof.
  intros Hrun.
  cut (Invariant trace w /\
       forall k m, JsObject.get (matchers (registry w)) k = Some m ->
                   Provenance trace m); [tauto|].
  apply (run_ind (fun tr w0 =>
           Invariant tr w0 /\
           forall k m, JsObject.get (matchers (registry w0)) k = Some m ->
                       Provenance tr m))
    with (p := p); [| |exact Hrun]; clear.
  - intros p. split; [apply invariant_init|]. intros k m H. discriminate.
  - intros tr w a w' [Hinv Hprov] Hstep.
    split; [eapply invariant_step; eauto|].
    assert (Hold : forall k m,
               JsObject.get (matchers (registry w)) k = Some m ->
               Provenance (tr ++ [a]) m)
      by (intros; eapply Provenance_snoc, Hprov; eauto).
    destruct Hinv as (_ & _ & Hfr & _).
    destruct a as [|registered| |c|i]; cbn [step] in Hstep.
    + now injection Hstep as <-.
    + now injection Hstep as <-.
    + destruct (pr_ready (problemPatternRegistry w) && initPending w);
        [|discriminate].
      injection Hstep as <-. projections. intros k m H.
      apply adds_get_inv in H. destruct H as [H|H]; [|eauto].
      left. eauto.
    + injection Hstep as <-. unfold register.
      destruct (negb (truthyString (c_name c))); [exact Hold|].
      destruct (awaitsPatternRegistry c); exact Hold.
    + destruct (nth_error (frames w) i) as [[c|c m0]|] eqn:Hi;
        [| |discriminate].
      * destruct (pr_ready (problemPatternRegistry w)); [|discriminate].
        now injection Hstep as <-.
      * injection Hstep as <-. projections. intros k m H.
        unfold add in H. projections in H.
        apply get_set_inv in H. destruct H as [->|H]; [|eauto].
        destruct (Forall_nth _ Hfr Hi) as (_ & [g ->] & Hcall).
        right. exists c, g. split; [|reflexivity].
        apply in_app_iff. auto.
Qed.

(** X8.  Whatever [get] or [getAll()] hands out is one of the defaults or
    the resolution of a contribution that was handed to [register]. *)
Theorem stored_provenance (p : ProblemPatternRegistry)
  (trace : list Action) w :
  run trace (init p) = Some w ->
  (forall n m, get (registry w) n = Some m -> Provenance trace m) /\
  (forall m, In (Some m) (getAll (registry w)) -> Provenance trace m).
Proof.
  intros Hrun.
  assert (Hget : forall n m, get (registry w) n = Some m ->
                             Provenance trace m).
  { intros n m. unfold get.
    destruct (startsWithDollar n); apply (provenance_invariant _ _ Hrun). }
  split; [exact Hget|].
  intros m Hin. unfold getAll in Hin. apply in_map_iff in Hin.
  destruct Hin as (k & Hk & _). eauto.
Qed.

End RegistryMore.


(** ** Maps *)
Module JsMapFacts.
Import JsMap.

Section Facts.
Variables V W : Type.
Implicit Types (m : JsMap.t V) (k : string) (v : V).

Lemma delete_absent m k : ~ In k (keys m) -> delete m k = m.
Proof.
  induction m as [|[j v] rest IH]; simpl; auto.
  intros Hout. destruct (String.eqb_spec j k) as [->|Hne]; [tauto|].
  f_equal. apply IH. tauto.
Qed.

Lemma get_delete_other m k k' : k <> k' -> get (delete m k) k' = get m k'.
Proof.
  intros Hne. unfold get. induction m as [|[j v] rest IH]; simpl; auto.
  destruct (String.eqb_spec j k) as [->|Hjk]; simpl.
  - destruct (String.eqb_spec k k'); congruence.
  - now rewrite IH.
Qed.

Lemma get_delete_same m k : NoDup (keys m) -> get (delete m k) k = None.
Proof.
  unfold get. induction m as [|[j v] rest IH]; simpl; auto.
  intros Hnd. inversion Hnd as [|? ? Hout Hnd']; subst.
  destruct (String.eqb_spec j k) as [->|Hjk]; simpl.
  - now apply JsObjectFacts.get_None_keys.
  - destruct (String.eqb_spec j k); [congruence|auto].
Qed.

Lemma keys_delete_In m k j : In j (keys (delete m k)) -> In j (keys m).
Proof.
  induction m as [|[i v] rest IH]; simpl; auto.
  destruct (String.eqb i k); simpl; intuition.
Qed.

Lemma NoDup_keys_delete m k : NoDup (keys m) -> NoDup (keys (delete m k)).
Proof.
  induction m as [|[j v] rest IH]; simpl; auto.
  intros Hnd. inversion Hnd as [|? ? Hout Hnd']; subst.
  destruct (String.eqb j k); simpl; auto.
  constructor; auto. intros H. apply Hout. eapply keys_delete_In; eauto.
Qed.

Lemma keys_delete_cong m (m' : JsMap.t W) k :
  keys m = keys m' -> keys (delete m k) = keys (delete m' k).
Proof.
  revert m'. induction m as [|[j v] rest IH]; intros [|[j' v'] rest'];
    simpl; try discriminate; auto.
  intros [= -> Hrest]. destruct (String.eqb j' k); simpl; auto.
  f_equal. auto.
Qed.

Lemma keys_set_cong m (m' : JsMap.t W) k v (v' : W) :
  keys m = keys m' -> keys (set m k v) = keys (set m' k v').
Proof.
  unfold set. revert m'.
  induction m as [|[j x] rest IH]; intros [|[j' x'] rest'];
    simpl; try discriminate; auto.
  intros [= -> Hrest]. destruct (String.eqb j' k); simpl.
  - now f_equal.
  - f_equal. auto.
Qed.

Lemma values_delete m k v :
  get m k = Some v -> Permutation (values m) (v :: values (delete m k)).
Proof.
  unfold get. induction m as [|[j x] rest IH]; simpl; [discriminate|].
  destruct (String.eqb j k).
  - intros [= ->]. reflexivity.
  - intros H. simpl. rewrite (IH H). apply perm_swap.
Qed.

Lemma values_set_new m k v :
  get m k = None -> values (set m k v) = values m ++ [v].
Proof.
  unfold get, set. induction m as [|[j x] rest IH]; simpl; auto.
  destruct (String.eqb j k); [discriminate|].
  intros H. simpl. now rewrite IH.
Qed.

Lemma set_same m k v : get m k = Some v -> set m k v = m.
Proof.
  unfold get, set. induction m as [|[j x] rest IH]; simpl; [discriminate|].
  destruct (String.eqb j k).
  - now intros [= ->].
  - intros H. now rewrite IH.
Qed.

Lemma set_set m k v v' : set (set m k v) k v' = set m k v'.
Proof.
  unfold set. induction m as [|[j x] rest IH]; simpl.
  - now rewrite String.eqb_refl.
  - destruct (String.eqb j k) eqn:E; simpl; rewrite E; [reflexivity|].
    now rewrite IH.
Qed.

End Facts.

End JsMapFacts.

(** ** The notification manager *)
Section ManagerFacts.
Context {deps : NotificationDeps}.
Implicit Types (s : Manager) (id : string) (n : Notification).

Lemma performAll_snoc (calls : list Call) (call : Call) s :
  performAll (calls ++ [call]) s = perform call (performAll calls s).
Proof. unfold performAll. now rewrite fold_left_app. Qed.

Lemma consistent_new (preference : Number) : Consistent (newManager preference).
Proof.
  unfold Consistent. simpl. split; [reflexivity|]. split; [constructor|].
  split; [discriminate|]. split; [constructor|].
  intros d. split; [tauto|lia].
Qed.

Lemma stored_under_id_set (ns : JsMap.t Notification) id n :
  messageId n = id ->
  (forall k x, JsMap.get ns k = Some x -> messageId x = k) ->
  forall k x, JsMap.get (JsMap.set ns id n) k = Some x -> messageId x = k.
Proof.
  intros Hn Hold k x. unfold JsMap.get, JsMap.set.
  destruct (string_dec id k) as [<-|Hne].
  - rewrite JsObjectFacts.get_set_same. now intros [= <-].
  - rewrite JsObjectFacts.get_set_other by assumption. apply Hold.
Qed.

Lemma keys_set_present (V : Type) (m : JsMap.t V) id (v x : V) :
  JsMap.get m id = Some x -> JsMap.keys (JsMap.set m id v) = JsMap.keys m.
Proof.
  intros H. apply JsObjectFacts.created_set_old.
  apply JsObjectFacts.get_created. unfold JsMap.get in H. congruence.
Qed.

Lemma accept_consistent (notification : Target) (action : option string) s :
  Consistent s -> Consistent (accept notification action s).
Proof.
  intros (Hk & Hnd & Hid & Hnd2 & Hb). unfold accept.
  destruct (negb (truthyString (Some (getId notification))));
    [unfold Consistent; auto|].
  set (id := getId notification).
  cbn [resultPromises setNotifications].
  destruct (JsMap.get (resultPromises s) id) as [d|] eqn:Hget.
  - assert (Hperm :
      Permutation (JsMap.values (resultPromises s) ++ map fst (resolved s))
                  (JsMap.values (JsMap.delete (resultPromises s) id)
                   ++ map fst (resolved s ++ [(d, action)]))).
    { rewrite map_app. simpl.
      rewrite (JsMapFacts.values_delete _ _ Hget). simpl.
      rewrite app_assoc. apply Permutation_cons_append. }
    assert (Hc : Consistent
      {| notifications := JsMap.delete (notifications s) id;
         resultPromises := JsMap.delete (resultPromises s) id;
         openState := openState s;
         notificationTimeout := notificationTimeout s;
         updateRequests := updateRequests s;
         resolved := resolved s ++ [(d, action)];
         nextDeferred := nextDeferred s;
         timers := timers s;
         cancelHooks := cancelHooks s |}).
    { unfold Consistent. cbn [notifications resultPromises resolved nextDeferred].
      split; [now apply JsMapFacts.keys_delete_cong|].
      split; [now apply JsMapFacts.NoDup_keys_delete|].
      split.
      { intros k x Hx. destruct (string_dec id k) as [<-|Hne].
        - rewrite JsMapFacts.get_delete_same in Hx by assumption. discriminate.
        - rewrite JsMapFacts.get_delete_other in Hx by assumption. auto. }
      split; [eapply Permutation_NoDup; eauto|].
      intros x. rewrite <- Hb. split; apply Permutation_in; auto.
      now symmetry. }
    cbn [notifications setNotifications].
    destruct (Nat.eqb _ 0); exact Hc.
  - assert (Hout : ~ In id (JsMap.keys (notifications s))).
    { rewrite Hk. intros Hin. apply JsObjectFacts.get_created in Hin.
      unfold JsMap.get in Hget. congruence. }
    unfold Consistent. cbn [notifications resultPromises resolved nextDeferred].
    rewrite (JsMapFacts.delete_absent _ _ Hout). auto.
Qed.

Lemma present_consistent id (plainMessage : PlainMessage)
      (progress0 : option Number) s :
  Consistent s ->
  JsMap.get (resultPromises s) id = None ->
  Consistent (present id plainMessage progress0 s).
Proof.
  intros (Hk & Hnd & Hid & Hnd2 & Hb) Hget.
  unfold Consistent, present.
  cbn [notifications resultPromises resolved nextDeferred fireUpdateEvent].
  assert (Hfresh : ~ In (nextDeferred s)
            (JsMap.values (resultPromises s) ++ map fst (resolved s))).
  { rewrite Hb. lia. }
  split; [now apply JsMapFacts.keys_set_cong|].
  split; [now apply JsObjectFacts.NoDup_created_set|].
  split; [now apply stored_under_id_set|].
  rewrite (JsMapFacts.values_set_new _ _ _ Hget).
  assert (Hperm :
    Permutation (nextDeferred s ::
                 JsMap.values (resultPromises s) ++ map fst (resolved s))
                ((JsMap.values (resultPromises s) ++ [nextDeferred s])
                 ++ map fst (resolved s))).
  { rewrite <- app_assoc. simpl. apply Permutation_middle. }
  split.
  - eapply Permutation_NoDup; [exact Hperm|]. now constructor.
  - intros x. split.
    + intros Hx. apply (Permutation_in _ (Permutation_sym Hperm)) in Hx.
      destruct Hx as [<-|Hx]; [lia|]. apply Hb in Hx. lia.
    + intros Hx. apply (Permutation_in _ Hperm).
      assert (Hcase : nextDeferred s = x \/ x < nextDeferred s) by lia.
      destruct Hcase as [->|Hlt]; [now left|]. right. now apply Hb.
Qed.

Lemma update_consistent id n n' s :
  Consistent s ->
  JsMap.get (notifications s) id = Some n ->
  messageId n' = messageId n ->
  Consistent (setNotifications (JsMap.set (notifications s) id n') s).
Proof.
  intros (Hk & Hnd & Hid & Hnd2 & Hb) Hget Hsame.
  unfold Consistent.
  cbn [notifications resultPromises resolved nextDeferred setNotifications].
  rewrite (keys_set_present _ _ n' Hget).
  split; [assumption|]. split; [assumption|].
  split; [|auto].
  apply stored_under_id_set; auto. rewrite Hsame. auto.
Qed.

Lemma clears_consistent (ns : list Notification) s :
  Consistent s ->
  Consistent (fold_left (fun acc n => clear (ByObject n) acc) ns s).
Proof.
  revert s. induction ns as [|n ns IH]; intros s Hs; simpl; auto.
  apply IH. now apply accept_consistent.
Qed.

Lemma perform_consistent (call : Call) s :
  Consistent s -> Consistent (perform call s).
Proof.
  intros Hs. destruct call as [| |t a|t| |id|m|id m token|id u cancelled];
    cbn [perform].
  - exact Hs.
  - exact Hs.
  - now apply accept_consistent.
  - now apply accept_consistent.
  - unfold clearAll. now apply clears_consistent.
  - unfold toggleExpansion, find.
    destruct (JsMap.get (notifications s) id) as [n|] eqn:Hn; [|exact Hs].
    apply update_consistent with (n := n); auto.
  - unfold showMessage.
    destruct (JsMap.get (resultPromises s) (getMessageId m)) eqn:Hget;
      [exact Hs|].
    cbn [snd].
    pose proof (@present_consistent (getMessageId m) m None s Hs Hget) as Hp.
    destruct (Nat.eqb _ 0); [|exact Hp].
    destruct (positive _); exact Hp.
  - unfold showProgress.
    destruct (JsMap.get (resultPromises s) id) eqn:Hget; [exact Hs|].
    cbn [snd]. exact (@present_consistent id m (Some zero) s Hs Hget).
  - unfold reportProgress, find.
    destruct (JsMap.get (notifications s) id) as [n|] eqn:Hn; [|exact Hs].
    destruct cancelled.
    + exact (@accept_consistent (ById id) None s Hs).
    + apply update_consistent with (n := n); auto.
Qed.

Lemma performAll_consistent (calls : list Call) s :
  Consistent s -> Consistent (performAll calls s).
Proof.
  revert s. induction calls as [|call calls IH]; intros s Hs; simpl; auto.
  apply IH. now apply perform_consistent.
Qed.

Lemma NoDup_app_disjoint (A : Type) (l l' : list A) (x : A) :
  NoDup (l ++ l') -> In x l -> ~ In x l'.
Proof.
  induction l as [|a l IH]; simpl; [tauto|].
  intros Hnd [<-|Hin] Hx.
  - inversion Hnd as [|? ? Hout _]; subst. apply Hout, in_app_iff. auto.
  - inversion Hnd; subst. now apply IH.
Qed.

Lemma get_In_values (V : Type) (m : JsMap.t V) id (v : V) :
  JsMap.get m id = Some v -> In v (JsMap.values m).
Proof.
  unfold JsMap.get, JsMap.values.
  induction m as [|[j x] rest IH]; simpl; [discriminate|].
  destruct (String.eqb j id); [intros [= ->]; auto|auto].
Qed.

(** X9.  Whatever calls the manager has received: the two maps have the
    same keys in the same order and every notification sits under its
    own id; every promise created so far is either pending or
    resolved, never both, and none was resolved twice. *)
Theorem manager_consistent (calls : list Call) (preference : Number) :
  JsMap.keys (notifications (performAll calls (newManager preference)))
  = JsMap.keys (resultPromises (performAll calls (newManager preference))) /\
  (forall id n,
      JsMap.get (notifications (performAll calls (newManager preference))) id
      = Some n -> messageId n = id) /\
  NoDup (map fst (resolved (performAll calls (newManager preference)))) /\
  (forall id d,
      JsMap.get (resultPromises (performAll calls (newManager preference))) id
      = Some d ->
      ~ In d (map fst (resolved (performAll calls (newManager preference))))) /\
  (forall d,
      d < nextDeferred (performAll calls (newManager preference)) <->
      In d (JsMap.values
              (resultPromises (performAll calls (newManager preference)))) \/
      In d (map fst (resolved (performAll calls (newManager preference))))).
Proof.
  destruct (performAll_consistent calls (consistent_new preference))
    as (Hk & _ & Hid & Hnd & Hb).
  split; [exact Hk|]. split; [exact Hid|].
  split; [eapply NoDup_app_remove_l; eauto|].
  split.
  - intros id d Hget. eapply NoDup_app_disjoint; [exact Hnd|].
    eapply get_In_values; eauto.
  - intros d. rewrite <- Hb, in_app_iff. tauto.
Qed.

(** X10.  A message that differs from a pending one at most in its source and
    its options is the same message: showing it returns the pending
    promise and changes nothing. *)
Theorem showMessage_again (m m' : PlainMessage) s :
  m_type m' = m_type m ->
  m_text m' = m_text m ->
  m_actions m' = m_actions m ->
  showMessage m' (snd (showMessage m s)) = showMessage m s.
Proof.
  intros Ht Hx Ha.
  assert (Hid : getMessageId m' = getMessageId m)
    by (unfold getMessageId; now rewrite Ht, Hx, Ha).
  unfold showMessage at 1. rewrite Hid. unfold showMessage.
  destruct (JsMap.get (resultPromises s) (getMessageId m)) as [d|] eqn:Hget.
  - cbn [snd]. now rewrite Hget.
  - cbn [snd].
    assert (Hnew : forall s2,
      resultPromises s2
      = JsMap.set (resultPromises s) (getMessageId m) (nextDeferred s) ->
      JsMap.get (resultPromises s2) (getMessageId m)
      = Some (nextDeferred s)).
    { intros s2 ->. apply JsObjectFacts.get_set_same. }
    destruct (Nat.eqb _ 0); [destruct (positive _)|];
      now rewrite Hnew by reflexivity.
Qed.

Lemma record_eta s :
  {| notifications := notifications s;
     resultPromises := resultPromises s;
     openState := openState s;
     notificationTimeout := notificationTimeout s;
     updateRequests := updateRequests s;
     resolved := resolved s;
     nextDeferred := nextDeferred s;
     timers := timers s;
     cancelHooks := cancelHooks s |} = s.
Proof. now destruct s. Qed.

(** X11.  [accept] of an id that is not pending changes nothing and asks for
    no update.  [accept] of a pending id takes the notification and the
    promise out of the maps, resolves that promise, and no other, with
    the action, leaves the other notifications alone, closes the center
    when no notification is left, and asks for one update. *)
Theorem accept_effect (calls : list Call) (preference : Number) s id
  (action : option string) :
  s = performAll calls (newManager preference) ->
  (JsMap.get (resultPromises s) id = None ->
   accept (ById id) action s = s) /\
  (forall d, JsMap.get (resultPromises s) id = Some d -> id <> "" ->
     JsMap.get (notifications (accept (ById id) action s)) id = None /\
     JsMap.get (resultPromises (accept (ById id) action s)) id = None /\
     resolved (accept (ById id) action s) = resolved s ++ [(d, action)] /\
     (forall k, k <> id ->
        JsMap.get (notifications (accept (ById id) action s)) k
        = JsMap.get (notifications s) k) /\
     openState (accept (ById id) action s)
     = (if Nat.eqb (JsMap.size (notifications (accept (ById id) action s))) 0
        then false else openState s) /\
     updateRequests (accept (ById id) action s) = S (updateRequests s)).
Proof.
  intros ->.
  pose proof (performAll_consistent calls (consistent_new preference)) as Hc.
  set (s := performAll calls (newManager preference)) in *.
  destruct Hc as (Hk & Hnd & Hid & _).
  assert (Hndr : NoDup (JsMap.keys (resultPromises s))) by now rewrite <- Hk.
  split.
  - intros Hget. unfold accept. cbn [getId].
    destruct (negb (truthyString (Some id))); [reflexivity|].
    cbn [resultPromises setNotifications]. rewrite Hget.
    assert (Hout : ~ In id (JsMap.keys (notifications s))).
    { rewrite Hk. intros Hin. apply JsObjectFacts.get_created in Hin.
      unfold JsMap.get in Hget. congruence. }
    rewrite (JsMapFacts.delete_absent _ _ Hout). apply record_eta.
  - intros d Hget Hne. unfold accept. cbn [getId].
    apply truthyString_Some in Hne. rewrite Hne. cbn [negb].
    cbn [resultPromises setNotifications notifications]. rewrite Hget.
    destruct (Nat.eqb (JsMap.size (JsMap.delete (notifications s) id)) 0)
      eqn:Hsize;
      cbn [fireUpdateEvent setOpen notifications resultPromises resolved
           openState updateRequests]; rewrite ?Hsize;
      (split; [now apply JsMapFacts.get_delete_same|];
       split; [now apply JsMapFacts.get_delete_same|];
       split; [reflexivity|];
       split; [intros k Hk'; apply JsMapFacts.get_delete_other; congruence|];
       split; reflexivity).
Qed.

Lemma accept_head (k : string) n (d : Deferred)
      (rest : JsMap.t Notification) (rest' : JsMap.t Deferred)
      (action : option string) s :
  notifications s = (k, n) :: rest ->
  resultPromises s = (k, d) :: rest' ->
  k <> "" -> messageId n = k ->
  notifications (accept (ByObject n) action s) = rest /\
  resultPromises (accept (ByObject n) action s) = rest' /\
  resolved (accept (ByObject n) action s) = resolved s ++ [(d, action)] /\
  updateRequests (accept (ByObject n) action s) = S (updateRequests s) /\
  (openState s = false -> openState (accept (ByObject n) action s) = false) /\
  (rest = [] -> openState (accept (ByObject n) action s) = false) /\
  timers (accept (ByObject n) action s) = timers s.
Proof.
  intros Hns Hrp Hne Hid. unfold accept. cbn [getId]. rewrite Hid.
  apply truthyString_Some in Hne. rewrite Hne. cbn [negb].
  cbn [resultPromises setNotifications notifications]. rewrite Hns, Hrp.
  unfold JsMap.get, JsMap.delete. simpl. rewrite String.eqb_refl.
  destruct rest; simpl; repeat split; auto; discriminate.
Qed.

Lemma clears_all (l : JsMap.t Notification) : forall s,
  notifications s = l ->
  Consistent s ->
  ~ In "" (JsMap.keys (notifications s)) ->
  openState s = false ->
  notifications (fold_left (fun acc n => clear (ByObject n) acc)
                           (JsMap.values l) s) = [] /\
  resultPromises (fold_left (fun acc n => clear (ByObject n) acc)
                            (JsMap.values l) s) = [] /\
  resolved (fold_left (fun acc n => clear (ByObject n) acc)
                      (JsMap.values l) s)
  = resolved s ++ map (fun d => (d, None)) (JsMap.values (resultPromises s)) /\
  openState (fold_left (fun acc n => clear (ByObject n) acc)
                       (JsMap.values l) s) = false /\
  updateRequests (fold_left (fun acc n => clear (ByObject n) acc)
                            (JsMap.values l) s)
  = updateRequests s + length l.
Proof.
  induction l as [|[k n] rest IH]; intros s Hns Hc Hempty Hopen.
  - simpl. destruct Hc as (Hk & _). rewrite Hns in Hk.
    destruct (resultPromises s) as [|x rp]; [|discriminate].
    simpl. rewrite app_nil_r. repeat split; auto.
  - pose proof Hc as (Hk & _ & Hid & _).
    rewrite Hns in Hk.
    destruct (resultPromises s) as [|[k' d] rest'] eqn:Hrp; [discriminate|].
    simpl in Hk. injection Hk as <- Hk.
    assert (Hne : k <> "").
    { intros ->. apply Hempty. rewrite Hns. simpl. auto. }
    assert (Hn : messageId n = k).
    { apply Hid. rewrite Hns. unfold JsMap.get. simpl.
      now rewrite String.eqb_refl. }
    destruct (@accept_head k n d rest rest' None s Hns Hrp Hne Hn)
      as (H1 & H2 & H3 & H4 & H5 & _ & _).
    change (accept (ByObject n) None s) with (clear (ByObject n) s) in *.
    change (JsMap.values ((k, n) :: rest)) with (n :: JsMap.values rest).
    cbn [fold_left].
    destruct (IH (clear (ByObject n) s)) as (I1 & I2 & I3 & I4 & I5).
    + exact H1.
    + now apply accept_consistent.
    + rewrite H1. intros Hin. apply Hempty. rewrite Hns. simpl. auto.
    + auto.
    + split; [exact I1|]. split; [exact I2|].
      split; [rewrite I3, H3, H2, <- app_assoc; reflexivity|].
      split; [exact I4|]. rewrite I5, H4. simpl. lia.
Qed.

(** X12.  [clearAll] on a manager where no notification has the empty id:
    afterwards no notification and no promise is left, every promise
    that was pending has been resolved with no action, in the order of
    the map, and the center is closed. *)
Theorem clearAll_empties (calls : list Call) (preference : Number) s :
  s = performAll calls (newManager preference) ->
  ~ In "" (JsMap.keys (notifications s)) ->
  notifications (clearAll s) = [] /\
  resultPromises (clearAll s) = [] /\
  resolved (clearAll s)
  = resolved s ++ map (fun d => (d, None)) (JsMap.values (resultPromises s)) /\
  openState (clearAll s) = false /\
  updateRequests (clearAll s)
  = updateRequests s + 1 + JsMap.size (notifications s).
Proof.
  intros -> Hempty.
  pose proof (performAll_consistent calls (consistent_new preference)) as Hc.
  set (s := performAll calls (newManager preference)) in *.
  unfold clearAll.
  destruct (@clears_all (notifications s) (fireUpdateEvent (setOpen false s)))
    as (H1 & H2 & H3 & H4 & H5); auto.
  split; [exact H1|]. split; [exact H2|]. split; [exact H3|].
  split; [exact H4|]. etransitivity; [exact H5|].
  simpl. unfold JsMap.size. lia.
Qed.

(** X13.  [toggleExpansion] of an id without notification changes nothing;
    otherwise it flips [collapsed] of that notification and of no
    other, and doing it twice brings the notifications back. *)
Theorem toggleExpansion_twice id s :
  (JsMap.get (notifications s) id = None -> toggleExpansion id s = s) /\
  (forall n, JsMap.get (notifications s) id = Some n ->
     JsMap.get (notifications (toggleExpansion id s)) id
     = Some (toggleCollapsed n) /\
     (forall k, k <> id ->
        JsMap.get (notifications (toggleExpansion id s)) k
        = JsMap.get (notifications s) k)) /\
  notifications (toggleExpansion id (toggleExpansion id s)) = notifications s /\
  resultPromises (toggleExpansion id (toggleExpansion id s))
  = resultPromises s /\
  openState (toggleExpansion id (toggleExpansion id s)) = openState s.
Proof.
  unfold toggleExpansion, find.
  destruct (JsMap.get (notifications s) id) as [n|] eqn:Hn.
  - split; [discriminate|]. split.
    + intros n0 [= <-].
      cbn [notifications setNotifications fireUpdateEvent].
      split; [apply JsObjectFacts.get_set_same|].
      intros k Hk. apply JsObjectFacts.get_set_other. congruence.
    + cbn [notifications setNotifications fireUpdateEvent].
      assert (Hget2 :
        JsMap.get (JsMap.set (notifications s) id (toggleCollapsed n)) id
        = Some (toggleCollapsed n)) by apply JsObjectFacts.get_set_same.
      rewrite !Hget2.
      cbn [notifications setNotifications fireUpdateEvent resultPromises
           openState].
      rewrite JsMapFacts.set_set.
      assert (Hback : toggleCollapsed (toggleCollapsed n) = n).
      { destruct n. unfold toggleCollapsed. simpl.
        now rewrite negb_involutive. }
      rewrite Hback, (JsMapFacts.set_same _ _ Hn). auto.
  - split; [reflexivity|]. split; [discriminate|].
    rewrite Hn. auto.
Qed.

Lemma timers_accept (notification : Target) (action : option string) s :
  timers (accept notification action s) = timers s.
Proof.
  unfold accept. destruct (negb _); [reflexivity|].
  cbn [resultPromises setNotifications].
  destruct (JsMap.get _ _); [|reflexivity].
  cbn [notifications]. now destruct (Nat.eqb _ 0).
Qed.

Lemma timers_clears (ns : list Notification) s :
  timers (fold_left (fun acc n => clear (ByObject n) acc) ns s) = timers s.
Proof.
  revert s. induction ns as [|n ns IH]; intros s; simpl; auto.
  rewrite IH. apply timers_accept.
Qed.

Lemma unique_nil (items : option (list string)) :
  unique items = [] -> orEmpty items = [].
Proof.
  unfold unique. destruct (orEmpty items) as [|x rest]; [reflexivity|].
  simpl. discriminate.
Qed.

Lemma timers_perform (call : Call) s (t : Number) id :
  In (t, id) (timers (perform call s)) ->
  In (t, id) (timers s) \/
  (positive t = true /\
   exists m, call = CallShowMessage m /\ getMessageId m = id /\
             orEmpty (m_actions m) = []).
Proof.
  destruct call as [| |tg a|tg| |k|m|k m token|k u cancelled]; cbn [perform].
  - auto.
  - auto.
  - rewrite timers_accept. auto.
  - unfold clear. rewrite timers_accept. auto.
  - unfold clearAll. rewrite timers_clears. auto.
  - unfold toggleExpansion. destruct (find s (ById k)); auto.
  - unfold showMessage.
    destruct (JsMap.get (resultPromises s) (getMessageId m)); [auto|].
    cbn [snd].
    destruct (Nat.eqb (length (unique (m_actions m))) 0) eqn:Hlen; [|auto].
    destruct (positive (effectiveTimeout m (present (getMessageId m) m None s)))
      eqn:Hpos; [|auto].
    cbn [timers setTimeout present fireUpdateEvent].
    rewrite in_app_iff. intros [Hin|[[= <- <-]|[]]]; [auto|].
    right. split; [exact Hpos|]. exists m. split; [reflexivity|].
    split; [reflexivity|]. apply unique_nil.
    destruct (unique (m_actions m)); [reflexivity|discriminate].
  - unfold showProgress. destruct (JsMap.get (resultPromises s) k); auto.
  - unfold reportProgress. destruct (find s (ById k)); [|auto].
    destruct cancelled; cbn [timers fireUpdateEvent setNotifications]; auto.
    unfold clear. rewrite timers_accept. auto.
Qed.

Lemma unique_actions (items : option (list string)) :
  orEmpty items <> [] -> Nat.eqb (length (unique items)) 0 = false.
Proof.
  unfold unique. destruct (orEmpty items) as [|x rest]; [congruence|].
  reflexivity.
Qed.

(** X14.  A call of [showMessage] for a message that lists an action
    sets no timer.  Every timer the manager has set was set by a call
    of [showMessage] for a message without any action, under the id of
    that message and with a timeout above zero. *)
Theorem timers_only_without_actions (calls : list Call)
  (preference : Number) :
  (forall (m : PlainMessage) s,
      orEmpty (m_actions m) <> [] ->
      timers (snd (showMessage m s)) = timers s) /\
  (forall (t : Number) id,
      In (t, id) (timers (performAll calls (newManager preference))) ->
      positive t = true /\
      exists m, In (CallShowMessage m) calls /\ getMessageId m = id /\
                orEmpty (m_actions m) = []).
Proof.
  split.
  - intros m s Hact. unfold showMessage.
    destruct (JsMap.get (resultPromises s) (getMessageId m)); [reflexivity|].
    cbn [snd]. now rewrite (unique_actions _ Hact).
  - intros t id. induction calls as [|call calls IH] using rev_ind.
    + simpl. tauto.
    + rewrite performAll_snoc. intros Hin.
      apply timers_perform in Hin.
      destruct Hin as [Hin|(Hpos & m & -> & Hid & Hact)].
      * destruct (IH Hin) as (Hpos & m & Hm & Hid & Hact).
        split; [exact Hpos|]. exists m. rewrite in_app_iff. auto.
      * split; [exact Hpos|]. exists m. rewrite in_app_iff. simpl. auto.
Qed.

Lemma string_pair_ind (P : string -> Prop) :
  P EmptyString ->
  (forall c, P (String c EmptyString)) ->
  (forall c c2 rest, P rest -> P (String c2 rest) ->
                     P (String c (String c2 rest))) ->
  forall content, P content.
Proof.
  intros H0 H1 H2 content.
  cut (P content /\ forall c, P (String c content)); [tauto|].
  induction content as [|c2 rest [IH1 IH2]]; split; auto.
Qed.

Lemma replaceNewlines_cons (c : ascii) (rest : string) :
  replaceNewlines (String c rest) =
  if Ascii.eqb c lineFeed then String " " (replaceNewlines rest)
  else if Ascii.eqb c carriageReturn then
    match rest with
    | String c2 rest2 =>
        if Ascii.eqb c2 lineFeed then String " " (replaceNewlines rest2)
        else String c (replaceNewlines rest)
    | EmptyString => String c EmptyString
    end
  else String c (replaceNewlines rest).
Proof. reflexivity. Qed.

(** X15.  The text handed to the markdown engine has no line feed in it, is
    never longer than the message, and is the message itself when that
    has no line feed. *)
Theorem replaceNewlines_single_line (content : string) :
  ~ In lineFeed (list_ascii_of_string (replaceNewlines content)) /\
  String.length (replaceNewlines content) <= String.length content /\
  (~ In lineFeed (list_ascii_of_string content) ->
   replaceNewlines content = content).
Proof.
  induction content as [|c|c c2 rest (I1 & I2 & I3) (J1 & J2 & J3)]
    using string_pair_ind.
  - simpl. auto.
  - simpl. destruct (Ascii.eqb_spec c lineFeed) as [->|Hlf]; simpl.
    + split; [intros [H|[]]; discriminate|]. split; [lia|]. tauto.
    + destruct (Ascii.eqb c carriageReturn); simpl;
        (split; [intros [H|[]]; congruence|]); auto.
  - rewrite replaceNewlines_cons.
    destruct (Ascii.eqb_spec c lineFeed) as [->|Hlf].
    + cbn [list_ascii_of_string String.length In].
      split; [intros [H|H]; [discriminate|now apply J1]|].
      split; [cbn [String.length] in *; lia|]. cbn [list_ascii_of_string In]. tauto.
    + destruct (Ascii.eqb c carriageReturn).
      * destruct (Ascii.eqb_spec c2 lineFeed) as [->|Hlf2].
        -- cbn [list_ascii_of_string String.length In].
           split; [intros [H|H]; [discriminate|now apply I1]|].
           split; [cbn [String.length] in *; lia|]. simpl. tauto.
        -- cbn [list_ascii_of_string String.length In].
           split; [intros [H|H]; [congruence|now apply J1]|].
           split; [cbn [String.length] in *; lia|].
           intros Hno. f_equal. apply J3. tauto.
      * cbn [list_ascii_of_string String.length In].
        split; [intros [H|H]; [congruence|now apply J1]|].
        split; [cbn [String.length] in *; lia|].
        intros Hno. f_equal. apply J3. tauto.
Qed.

Lemma uniqueFrom_spec (items seen : list string) :
  NoDup (uniqueFrom seen items) /\
  forall x, In x (uniqueFrom seen items) <-> In x items /\ ~ In x seen.
Proof.
  revert seen. induction items as [|a rest IH]; intros seen; simpl.
  - split; [constructor|]. tauto.
  - destruct (existsb (String.eqb a) seen) eqn:E.
    + destruct (IH seen) as [Hnd Hin]. split; [exact Hnd|].
      apply existsb_exists in E. destruct E as (y & Hy & Heq).
      apply String.eqb_eq in Heq. subst y.
      intros x. rewrite Hin. split; [tauto|].
      intros [[<-|Hx] Hout]; tauto.
    + destruct (IH (a :: seen)) as [Hnd Hin].
      assert (Ha : ~ In a seen).
      { intros Hin'. apply Bool.not_true_iff_false in E. apply E.
        apply existsb_exists. exists a. split; [exact Hin'|].
        apply String.eqb_refl. }
      split.
      * constructor; [|exact Hnd]. rewrite Hin. simpl. tauto.
      * intros x. simpl. rewrite Hin. simpl.
        destruct (string_dec a x) as [<-|Hne]; tauto.
Qed.

Lemma values_delete_In (V : Type) (m : JsMap.t V) (k : string) (x : V) :
  In x (JsMap.values (JsMap.delete m k)) -> In x (JsMap.values m).
Proof.
  unfold JsMap.values. induction m as [|[j v] rest IH]; simpl; auto.
  destruct (String.eqb j k); simpl; intuition.
Qed.

Lemma values_set_In (V : Type) (m : JsMap.t V) (k : string) (v x : V) :
  In x (JsMap.values (JsMap.set m k v)) -> x = v \/ In x (JsMap.values m).
Proof.
  unfold JsMap.values, JsMap.set.
  induction m as [|[j y] rest IH]; simpl; [intuition|].
  destruct (String.eqb j k); simpl; intuition.
Qed.

Section Stored.
Variable P : Notification -> Prop.
Hypothesis P_toggle : forall n, P n -> P (toggleCollapsed n).
Hypothesis P_reported : forall u n, P n -> P (reported u n).
Hypothesis P_present : forall id (m : PlainMessage) (p0 : option Number) s n,
  In n (JsMap.values (notifications (present id m p0 s))) ->
  In n (JsMap.values (notifications s)) \/
  P n.

Local Abbreviation AllStored s :=
  (forall n, In n (JsMap.values (notifications s)) -> P n).

Lemma accept_stored (notification : Target) (action : option string) s :
  AllStored s -> AllStored (accept notification action s).
Proof.
  intros Hs n. unfold accept. destruct (negb _); [apply Hs|].
  cbn [resultPromises setNotifications].
  destruct (JsMap.get _ _).
  - cbn [notifications]. destruct (Nat.eqb _ 0);
      cbn [notifications fireUpdateEvent setOpen];
      intros H; apply Hs; now apply values_delete_In in H.
  - cbn [notifications]. intros H. apply Hs. now apply values_delete_In in H.
Qed.

Lemma clears_stored (ns : list Notification) s :
  AllStored s ->
  AllStored (fold_left (fun acc n => clear (ByObject n) acc) ns s).
Proof.
  revert s. induction ns as [|n ns IH]; intros s Hs; simpl; auto.
  apply IH. now apply accept_stored.
Qed.

Lemma perform_stored (call : Call) s : AllStored s -> AllStored (perform call s).
Proof.
  intros Hs. destruct call as [| |t a|t| |id|m|id m token|id u cancelled];
    cbn [perform].
  - exact Hs.
  - exact Hs.
  - now apply accept_stored.
  - now apply accept_stored.
  - unfold clearAll. now apply clears_stored.
  - unfold toggleExpansion, find.
    destruct (JsMap.get (notifications s) id) as [n0|] eqn:Hn; [|exact Hs].
    intros n. cbn [notifications fireUpdateEvent setNotifications].
    intros H. apply values_set_In in H. destruct H as [->|H]; [|now apply Hs].
    apply P_toggle, Hs. eapply get_In_values; eauto.
  - unfold showMessage.
    destruct (JsMap.get (resultPromises s) (getMessageId m)); [exact Hs|].
    cbn [snd]. intros n Hin.
    assert (Hin' : In n (JsMap.values
                     (notifications (present (getMessageId m) m None s)))).
    { destruct (Nat.eqb _ 0); [|exact Hin].
      destruct (positive _); exact Hin. }
    apply P_present in Hin'. destruct Hin'; auto.
  - unfold showProgress.
    destruct (JsMap.get (resultPromises s) id); [exact Hs|].
    cbn [snd]. intros n Hin.
    assert (Hin' : In n (JsMap.values
                     (notifications (present id m (Some zero) s))))
      by exact Hin.
    apply P_present in Hin'. destruct Hin'; auto.
  - unfold reportProgress, find.
    destruct (JsMap.get (notifications s) id) as [n0|] eqn:Hn; [|exact Hs].
    destruct cancelled.
    + exact (@accept_stored (ById id) None s Hs).
    + intros n. cbn [notifications fireUpdateEvent setNotifications].
      intros H. apply values_set_In in H. destruct H as [->|H]; [|now apply Hs].
      apply P_reported, Hs. eapply get_In_values; eauto.
Qed.

Lemma performAll_stored (calls : list Call) s :
  AllStored s -> AllStored (performAll calls s).
Proof.
  revert s. induction calls as [|call calls IH]; intros s Hs; simpl; auto.
  apply IH. now apply perform_stored.
Qed.

End Stored.

(** X16.  No notification offers the same action twice, whatever the
    messages that were shown listed. *)
Theorem actions_unique (calls : list Call) (preference : Number) id n :
  JsMap.get (notifications (performAll calls (newManager preference))) id
  = Some n ->
  NoDup (actions n).
Proof.
  intros Hget.
  apply (@performAll_stored (fun n => NoDup (actions n))) with
    (calls := calls) (s := newManager preference).
  - intros n0 H. exact H.
  - intros u n0 H. exact H.
  - intros k m p0 s n0 Hin. unfold present in Hin.
    cbn [notifications fireUpdateEvent] in Hin.
    apply values_set_In in Hin. destruct Hin as [->|Hin]; [right|auto].
    cbn [actions]. apply uniqueFrom_spec.
  - intros n0 [].
  - eapply get_In_values; eauto.
Qed.

Lemma accept_keeps_empty_id (t : Target) (a : option string) s (d : Deferred) :
  JsMap.get (resultPromises s) "" = Some d ->
  JsMap.get (resultPromises (accept t a s)) "" = Some d.
Proof.
  intros Hd. unfold accept.
  destruct (truthyString (Some (getId t))) eqn:Hid; cbn [negb]; [|exact Hd].
  apply truthyString_Some in Hid.
  cbn [resultPromises setNotifications].
  destruct (JsMap.get (resultPromises s) (getId t)) as [d'|]; [|exact Hd].
  cbn [notifications]. destruct (Nat.eqb _ 0);
    cbn [fireUpdateEvent setOpen resultPromises];
    rewrite JsMapFacts.get_delete_other; auto.
Qed.

Lemma clears_keep_empty_id (ns : list Notification) s (d : Deferred) :
  JsMap.get (resultPromises s) "" = Some d ->
  JsMap.get (resultPromises
               (fold_left (fun acc n => clear (ByObject n) acc) ns s)) ""
  = Some d.
Proof.
  revert s. induction ns as [|n ns IH]; intros s Hd; simpl; auto.
  apply IH. now apply accept_keeps_empty_id.
Qed.

Lemma present_keeps_empty_id id (m : PlainMessage) (p0 : option Number) s
      (d : Deferred) :
  JsMap.get (resultPromises s) id = None ->
  JsMap.get (resultPromises s) "" = Some d ->
  JsMap.get (resultPromises (present id m p0 s)) "" = Some d.
Proof.
  intros Hnone Hd. unfold present. cbn [fireUpdateEvent resultPromises].
  unfold JsMap.get, JsMap.set. rewrite JsObjectFacts.get_set_other; auto.
  intros ->. unfold JsMap.get in *. congruence.
Qed.

Lemma perform_keeps_empty_id (call : Call) s (d : Deferred) :
  JsMap.get (resultPromises s) "" = Some d ->
  JsMap.get (resultPromises (perform call s)) "" = Some d.
Proof.
  intros Hd. destruct call as [| |t a|t| |id|m|id m token|id u cancelled];
    cbn [perform].
  - exact Hd.
  - exact Hd.
  - now apply accept_keeps_empty_id.
  - now apply accept_keeps_empty_id.
  - unfold clearAll. now apply clears_keep_empty_id.
  - unfold toggleExpansion. destruct (find s (ById id)); exact Hd.
  - unfold showMessage.
    destruct (JsMap.get (resultPromises s) (getMessageId m)) eqn:Hget;
      [exact Hd|].
    cbn [snd].
    pose proof (@present_keeps_empty_id (getMessageId m) m None s d Hget Hd)
      as Hp.
    destruct (Nat.eqb _ 0); [|exact Hp]. destruct (positive _); exact Hp.
  - unfold showProgress.
    destruct (JsMap.get (resultPromises s) id) eqn:Hget; [exact Hd|].
    cbn [snd].
    exact (@present_keeps_empty_id id m (Some zero) s d Hget Hd).
  - unfold reportProgress. destruct (find s (ById id)); [|exact Hd].
    destruct cancelled; [|exact Hd].
    exact (@accept_keeps_empty_id (ById id) None s d Hd).
Qed.

(** X17.  A promise that is pending under the empty id stays pending for
    good: [accept] and [clear] return at once on the empty id, so no
    call takes the entry out of the map or resolves the promise. *)
Theorem empty_id_stays (calls later : list Call) (preference : Number)
  (d : Deferred) :
  JsMap.get (resultPromises (performAll calls (newManager preference))) ""
  = Some d ->
  JsMap.get
    (resultPromises (performAll (calls ++ later) (newManager preference))) ""
  = Some d /\
  ~ In d (map fst
            (resolved (performAll (calls ++ later) (newManager preference)))).
Proof.
  intros Hd.
  assert (Hstay : JsMap.get
    (resultPromises (performAll (calls ++ later) (newManager preference))) ""
    = Some d).
  { unfold performAll. rewrite fold_left_app.
    fold (performAll calls (newManager preference)).
    generalize dependent (performAll calls (newManager preference)).
    induction later as [|call later IH]; intros s Hd; simpl; auto.
    apply IH. now apply perform_keeps_empty_id. }
  split; [exact Hstay|].
  destruct (performAll_consistent (calls ++ later) (consistent_new preference))
    as (_ & _ & _ & Hnd & _).
  eapply NoDup_app_disjoint; [exact Hnd|].
  eapply get_In_values; eauto.
Qed.

End ManagerFacts.


(** ** The progress bridge *)
Module NotificationMainFacts.
Import Floats NotificationMain.

Lemma hundred_plain :
  PrimFloat.is_nan hundred = false /\ PrimFloat.is_zero hundred = false /\
  PrimFloat.leb hundred hundred = true.
Proof. repeat split. Qed.

Lemma Math_min_hundred (x : float) : inRange (Math_min x hundred).
Proof.
  destruct hundred_plain as (Hn & Hz & Hl).
  unfold inRange, Math_min. rewrite Hn, Hz, orb_false_r, andb_false_r.
  destruct (PrimFloat.is_nan x); [left; reflexivity|].
  destruct (PrimFloat.leb x hundred) eqn:Hle; auto.
Qed.

Lemma zero_inRange : inRange PrimFloat.zero.
Proof. right. reflexivity. Qed.

Lemma truthy_number (x : float) :
  truthy x = true -> PrimFloat.is_nan x = false /\ PrimFloat.is_zero x = false.
Proof.
  unfold truthy. destruct (PrimFloat.is_zero x), (PrimFloat.is_nan x);
    simpl; intuition discriminate.
Qed.

Lemma bridge_performAll_snoc (calls : list Call) (call : Call) (s : Main) :
  performAll (calls ++ [call]) s = perform call (performAll calls s).
Proof. unfold performAll. now rewrite fold_left_app. Qed.

Lemma consistent_create : Consistent create.
Proof.
  unfold Consistent. simpl. split; [reflexivity|]. split; [constructor|].
  split; discriminate.
Qed.

Lemma bridge_perform_consistent (call : Call) (s : Main) :
  Consistent s -> Consistent (perform call s).
Proof.
  intros (Hk & Hnd & Hid & Hw). destruct call as [pid|id|id item]; cbn [perform].
  - unfold Consistent. cbn [startProgress snd progressMap progress2Work].
    split; [now apply JsMapFacts.keys_set_cong|].
    split; [now apply JsObjectFacts.NoDup_created_set|].
    split.
    + intros k x. unfold JsMap.get, JsMap.set.
      destruct (string_dec pid k) as [<-|Hne].
      * rewrite JsObjectFacts.get_set_same. congruence.
      * rewrite JsObjectFacts.get_set_other by assumption. apply Hid.
    + intros k x. unfold JsMap.get, JsMap.set.
      destruct (string_dec pid k) as [<-|Hne].
      * rewrite JsObjectFacts.get_set_same. intros [= <-]. apply zero_inRange.
      * rewrite JsObjectFacts.get_set_other by assumption. apply Hw.
  - unfold stopProgress.
    destruct (JsMap.get (progressMap s) id) as [progress|] eqn:Hget;
      [|unfold Consistent; auto].
    assert (Hndw : NoDup (JsMap.keys (progress2Work s))) by now rewrite <- Hk.
    unfold Consistent. cbn [progressMap progress2Work].
    split; [now apply JsMapFacts.keys_delete_cong|].
    split; [now apply JsMapFacts.NoDup_keys_delete|].
    split.
    + intros k x Hx. destruct (string_dec id k) as [<-|Hne].
      * rewrite JsMapFacts.get_delete_same in Hx by assumption. discriminate.
      * rewrite JsMapFacts.get_delete_other in Hx by assumption. eauto.
    + intros k x Hx. destruct (string_dec id k) as [<-|Hne].
      * rewrite JsMapFacts.get_delete_same in Hx by assumption. discriminate.
      * rewrite JsMapFacts.get_delete_other in Hx by assumption. eauto.
  - unfold updateProgress.
    destruct (JsMap.get (progressMap s) id) as [progress|] eqn:Hget;
      [|unfold Consistent; auto].
    assert (Hin : In id (JsMap.keys (progress2Work s))).
    { rewrite <- Hk. apply JsObjectFacts.get_created.
      unfold JsMap.get in Hget. congruence. }
    unfold Consistent. cbn [progressMap progress2Work].
    split.
    { rewrite Hk. symmetry. now apply JsObjectFacts.created_set_old. }
    split; [assumption|]. split; [assumption|].
    intros k x. unfold JsMap.get, JsMap.set.
    destruct (string_dec id k) as [<-|Hne].
    + rewrite JsObjectFacts.get_set_same. intros [= <-].
      apply Math_min_hundred.
    + rewrite JsObjectFacts.get_set_other by assumption. apply Hw.
Qed.

Lemma bridge_performAll_consistent (calls : list Call) (s : Main) :
  Consistent s -> Consistent (performAll calls s).
Proof.
  revert s. induction calls as [|call calls IH]; intros s Hs; simpl; auto.
  apply IH. now apply bridge_perform_consistent.
Qed.

Lemma reports_perform (call : Call) (s : Main) (r : Reported) :
  In r (reports (perform call s)) ->
  In r (reports s) \/
  (forall done, r_done r = Some done ->
     PrimFloat.is_nan done = false /\ PrimFloat.is_zero done = false /\
     PrimFloat.leb done hundred = true).
Proof.
  destruct call as [pid|id|id item]; cbn [perform].
  - auto.
  - unfold stopProgress. destruct (JsMap.get (progressMap s) id); auto.
  - unfold updateProgress. destruct (JsMap.get (progressMap s) id); [|auto].
    cbn [reports]. rewrite in_app_iff. intros [Hin|[<-|[]]]; [auto|].
    right. cbn [r_done]. intros done.
    destruct (truthy (doneOf (JsMap.get (progress2Work s) id) item)) eqn:Ht;
      [|discriminate].
    intros [= <-]. apply truthy_number in Ht. destruct Ht as [Hn Hz].
    split; [exact Hn|]. split; [exact Hz|].
    destruct (Math_min_hundred
                (PrimFloat.add (orZero (JsMap.get (progress2Work s) id))
                               (orZero (increment item)))) as [H|H];
      [|exact H].
    unfold doneOf in Hn. congruence.
Qed.

Lemma reports_in_range (calls : list Call) (r : Reported) (done : float) :
  In r (reports (performAll calls create)) -> r_done r = Some done ->
  PrimFloat.is_nan done = false /\ PrimFloat.is_zero done = false /\
  PrimFloat.leb done hundred = true.
Proof.
  induction calls as [|call calls IH] using rev_ind.
  - simpl. tauto.
  - rewrite bridge_performAll_snoc. intros Hin Hdone.
    apply reports_perform in Hin. destruct Hin as [Hin|Hnew]; auto.
Qed.

(** X18.  Whatever calls the bridge has received: the two maps have the same
    keys, every stored work amount is NaN or at most 100, and every
    [done] handed to a progress is a number other than zero that is at
    most 100. *)
Theorem work_capped (calls : list Call) :
  JsMap.keys (progressMap (performAll calls create))
  = JsMap.keys (progress2Work (performAll calls create)) /\
  (forall id work,
      JsMap.get (progress2Work (performAll calls create)) id = Some work ->
      PrimFloat.is_nan work = true \/ PrimFloat.leb work 100%float = true) /\
  (forall r done,
      In r (reports (performAll calls create)) -> r_done r = Some done ->
      PrimFloat.is_nan done = false /\ PrimFloat.is_zero done = false /\
      PrimFloat.leb done 100%float = true).
Proof.
  destruct (bridge_performAll_consistent calls consistent_create)
    as (Hk & _ & _ & Hw).
  split; [exact Hk|]. split; [exact Hw|].
  intros r done. apply reports_in_range.
Qed.

(** X19.  [$stopProgress] of an id that is not in progress changes nothing.
    Otherwise it cancels that progress and forgets it: the id is gone
    from both maps, the others stay, and a later [$updateProgress] of
    the id does nothing. *)
Theorem stopProgress_effect (calls : list Call) (s : Main) (id : string) :
  s = performAll calls create ->
  (JsMap.get (progressMap s) id = None -> stopProgress id s = s) /\
  (JsMap.get (progressMap s) id <> None ->
     cancelled (stopProgress id s) = cancelled s ++ [id] /\
     JsMap.get (progressMap (stopProgress id s)) id = None /\
     JsMap.get (progress2Work (stopProgress id s)) id = None /\
     (forall k, k <> id ->
        JsMap.get (progressMap (stopProgress id s)) k
        = JsMap.get (progressMap s) k /\
        JsMap.get (progress2Work (stopProgress id s)) k
        = JsMap.get (progress2Work s) k) /\
     forall item, updateProgress id item (stopProgress id s)
                  = stopProgress id s).
Proof.
  intros ->.
  destruct (bridge_performAll_consistent calls consistent_create)
    as (Hk & Hnd & Hid & _).
  set (s := performAll calls create) in *.
  assert (Hndw : NoDup (JsMap.keys (progress2Work s))) by now rewrite <- Hk.
  unfold stopProgress.
  destruct (JsMap.get (progressMap s) id) as [progress|] eqn:Hget.
  - split; [discriminate|]. intros _.
    rewrite (Hid _ _ Hget). cbn [cancelled progressMap progress2Work].
    assert (Hgone : JsMap.get (JsMap.delete (progressMap s) id) id = None)
      by now apply JsMapFacts.get_delete_same.
    split; [reflexivity|]. split; [exact Hgone|].
    split; [now apply JsMapFacts.get_delete_same|].
    split.
    + intros k Hne. split; apply JsMapFacts.get_delete_other; congruence.
    + intros item. unfold updateProgress. cbn [progressMap].
      now rewrite Hgone.
  - split; [reflexivity|]. congruence.
Qed.

End NotificationMainFacts.


(** ** More sample data *)
Section MoreSamples.
Import SpecCommon SampleDeps.

Lemma getAll_permutation_witness :
  run [InitContinue; CallRegister (named (Some "x")); Resume 0]
      (init readyRegistry)
  = Some (after [InitContinue; CallRegister (named (Some "x")); Resume 0]
                readyRegistry) /\
  Permutation
    (getAll (registry
       (after [InitContinue; CallRegister (named (Some "x")); Resume 0]
              readyRegistry)))
    (map (fun kv => Some (snd kv))
       (matchers (registry
          (after [InitContinue; CallRegister (named (Some "x")); Resume 0]
                 readyRegistry)))).
Proof.
  split; [reflexivity|].
  apply (@getAll_permutation common readyRegistry
           [InitContinue; CallRegister (named (Some "x")); Resume 0]);
    [reflexivity|].
  intros k Hin. simpl in Hin.
  repeat (destruct Hin as [<-|Hin]; [reflexivity|]). destruct Hin.
Defined.

Lemma register_without_lookup_witness :
  awaitsPatternRegistry (withPattern "m" (@InlinePattern common (pat "a"))) = false /\
  pr_ready pendingRegistry = false /\
  option_map (fun m => pattern m)
    (get (registry
       (after [CallRegister (withPattern "m" (@InlinePattern common (pat "a")));
               Resume 0] pendingRegistry)) "m")
  = Some (PatternArray [pat "a"]).
Proof.
  split; [reflexivity|]. split; [reflexivity|].
  destruct (@register_without_lookup common
              (withPattern "m" (@InlinePattern common (pat "a")))
              (init pendingRegistry) eq_refl eq_refl) as [_ Hrun].
  unfold after. cbn [frames init length] in Hrun.
  rewrite (Hrun samplePatterns). reflexivity.
Defined.

Lemma seeding_overwrites_witness :
  step InitContinue
       (after [CallRegister (withApplyTo "go" (Some "openDocuments"));
               Resume 0] readyRegistry)
  = Some (after [CallRegister (withApplyTo "go" (Some "openDocuments"));
                 Resume 0; InitContinue] readyRegistry) /\
  option_map (fun m => applyTo m)
    (get (registry
       (after [CallRegister (withApplyTo "go" (Some "openDocuments"));
               Resume 0] readyRegistry)) "go")
  = Some openDocuments /\
  option_map (fun m => applyTo m)
    (get (registry
       (after [CallRegister (withApplyTo "go" (Some "openDocuments"));
               Resume 0; InitContinue] readyRegistry)) "go")
  = Some allDocuments.
Proof.
  split; [reflexivity|]. split; [reflexivity|].
  destruct (@seeding_overwrites common
    (after [CallRegister (withApplyTo "go" (Some "openDocuments"));
            Resume 0] readyRegistry)
    (after [CallRegister (withApplyTo "go" (Some "openDocuments"));
            Resume 0; InitContinue] readyRegistry) eq_refl) as [Hget _].
  assert (Hgo := Hget (defaultMatcher "go" "Go problems" None "go" (Some "go")
                         allDocuments Relative (Some "${workspaceFolder}")
                         (samplePatterns "go") None)).
  cbn [propertyKey name defaultMatcher] in Hgo.
  rewrite Hgo; [reflexivity|]. simpl. tauto.
Defined.

Lemma get_stays_defined_witness :
  run [InitContinue; CallRegister (named (Some "go")); Resume 0]
      (after [CallRegister (named (Some "x")); Resume 0] readyRegistry)
  = Some (after [CallRegister (named (Some "x")); Resume 0; InitContinue;
                 CallRegister (named (Some "go")); Resume 0] readyRegistry) /\
  get (registry (after [CallRegister (named (Some "x")); Resume 0]
                       readyRegistry)) "$x" <> None /\
  get (registry (after [CallRegister (named (Some "x")); Resume 0;
                        InitContinue; CallRegister (named (Some "go"));
                        Resume 0] readyRegistry)) "$x" <> None.
Proof.
  split; [reflexivity|].
  assert (H : get (registry (after [CallRegister (named (Some "x")); Resume 0]
                                   readyRegistry)) "$x" <> None)
    by discriminate.
  split; [exact H|].
  exact (@get_stays_defined common
           [InitContinue; CallRegister (named (Some "go")); Resume 0]
           (after [CallRegister (named (Some "x")); Resume 0] readyRegistry)
           (after [CallRegister (named (Some "x")); Resume 0; InitContinue;
                   CallRegister (named (Some "go")); Resume 0] readyRegistry)
           "$x" eq_refl H).
Defined.

Lemma console_accounting_witness :
  run [CallRegister (named None); CallRegister (named (Some "x"));
       CallRegister (named (Some ""))] (init readyRegistry)
  = Some (after [CallRegister (named None); CallRegister (named (Some "x"));
                 CallRegister (named (Some ""))] readyRegistry) /\
  console (after [CallRegister (named None); CallRegister (named (Some "x"));
                  CallRegister (named (Some ""))] readyRegistry)
  = [nameError; nameError].
Proof.
  split; [reflexivity|].
  exact (@console_accounting common readyRegistry
           [CallRegister (named None); CallRegister (named (Some "x"));
            CallRegister (named (Some ""))]
           (after [CallRegister (named None); CallRegister (named (Some "x"));
                   CallRegister (named (Some ""))] readyRegistry) eq_refl).
Defined.

Lemma stored_provenance_witness :
  run [CallRegister (named (Some "x")); Resume 0] (init readyRegistry)
  = Some (after [CallRegister (named (Some "x")); Resume 0] readyRegistry) /\
  get (registry (after [CallRegister (named (Some "x")); Resume 0]
                       readyRegistry)) "x"
  = Some (getProblemMatcherFromContribution (named (Some "x"))
                                            samplePatterns) /\
  Provenance [CallRegister (named (Some "x")); Resume 0]
             (getProblemMatcherFromContribution (named (Some "x"))
                                                samplePatterns).
Proof.
  split; [reflexivity|]. split; [reflexivity|].
  destruct (@stored_provenance common readyRegistry
              [CallRegister (named (Some "x")); Resume 0]
              (after [CallRegister (named (Some "x")); Resume 0]
                     readyRegistry) eq_refl) as [Hget _].
  apply (Hget "x"). reflexivity.
Defined.

Lemma showMessage_again_witness :
  showMessage (plain "saved" None (Some 5%Z) (Some "git"))
    (snd (showMessage (plain "saved" None None None) fresh))
  = showMessage (plain "saved" None None None) fresh.
Proof.
  apply (@showMessage_again deps); reflexivity.
Defined.

Lemma accept_effect_witness :
  JsMap.get
    (resultPromises
       (performAll [CallShowMessage (plain "sure?" (Some ["yes"; "no"])
                                           None None)]
                   fresh))
    "[undefined] sure? : yes | no;" = Some 0 /\
  resolved
    (accept (ById "[undefined] sure? : yes | no;") (Some "yes")
       (performAll [CallShowMessage (plain "sure?" (Some ["yes"; "no"])
                                           None None)]
                   fresh))
  = [(0, Some "yes")] /\
  openState
    (accept (ById "[undefined] sure? : yes | no;") (Some "yes")
       (performAll [CallShowMessage (plain "sure?" (Some ["yes"; "no"])
                                           None None)]
                   fresh))
  = false.
Proof.
  split; [reflexivity|].
  destruct (@accept_effect deps
    [CallShowMessage (plain "sure?" (Some ["yes"; "no"]) None None)]
    3000%Z
    (performAll [CallShowMessage (plain "sure?" (Some ["yes"; "no"])
                                        None None)] fresh)
    "[undefined] sure? : yes | no;" (Some "yes") eq_refl) as [_ Hpending].
  destruct (Hpending 0 eq_refl) as (_ & _ & Hres & _ & Hopen & _);
    [discriminate|].
  split; [exact Hres|]. rewrite Hopen. reflexivity.
Defined.

Lemma clearAll_empties_witness :
  ~ In "" (JsMap.keys (notifications
       (performAll [CallShowMessage (plain "a" None None None);
                    CallShowMessage (plain "b" (Some ["ok"]) None None)]
                   fresh))) /\
  notifications
    (clearAll
       (performAll [CallShowMessage (plain "a" None None None);
                    CallShowMessage (plain "b" (Some ["ok"]) None None)]
                   fresh)) = [] /\
  resolved
    (clearAll
       (performAll [CallShowMessage (plain "a" None None None);
                    CallShowMessage (plain "b" (Some ["ok"]) None None)]
                   fresh)) = [(0, None); (1, None)].
Proof.
  assert (H : ~ In "" (JsMap.keys (notifications
       (performAll [CallShowMessage (plain "a" None None None);
                    CallShowMessage (plain "b" (Some ["ok"]) None None)]
                   fresh)))).
  { simpl. intros [H|[H|[]]]; discriminate. }
  split; [exact H|].
  destruct (@clearAll_empties deps
    [CallShowMessage (plain "a" None None None);
     CallShowMessage (plain "b" (Some ["ok"]) None None)] 3000%Z _ eq_refl H)
    as (Hn & _ & Hr & _).
  split; [exact Hn|]. etransitivity; [exact Hr|reflexivity].
Defined.

Lemma timers_only_without_actions_witness :
  In (3000%Z, "[undefined] a : ;")
     (timers (performAll [CallShowMessage (plain "a" None None None);
                          CallShowMessage (plain "b" (Some ["ok"]) None None)]
                         fresh)) /\
  @positive deps 3000%Z = true.
Proof.
  assert (H : In (3000%Z, "[undefined] a : ;")
     (timers (performAll [CallShowMessage (plain "a" None None None);
                          CallShowMessage (plain "b" (Some ["ok"]) None None)]
                         fresh))) by (left; reflexivity).
  split; [exact H|].
  exact (proj1 (proj2 (@timers_only_without_actions deps
    [CallShowMessage (plain "a" None None None);
     CallShowMessage (plain "b" (Some ["ok"]) None None)] 3000%Z) 3000%Z
    "[undefined] a : ;" H)).
Defined.

Lemma actions_unique_witness :
  JsMap.get
    (notifications
       (performAll [CallShowMessage (plain "sure?" (Some ["yes"; "no"; "yes"])
                                           None None)]
                   fresh))
    "[undefined] sure? : yes | no | yes;"
  <> None /\
  option_map (fun n => actions n)
    (JsMap.get
       (notifications
          (performAll [CallShowMessage
                         (plain "sure?" (Some ["yes"; "no"; "yes"]) None None)]
                      fresh))
       "[undefined] sure? : yes | no | yes;")
  = Some ["yes"; "no"] /\
  NoDup ["yes"; "no"].
Proof.
  split; [discriminate|]. split; [reflexivity|].
  exact (@actions_unique deps
    [CallShowMessage (plain "sure?" (Some ["yes"; "no"; "yes"]) None None)]
    3000%Z "[undefined] sure? : yes | no | yes;" _ eq_refl).
Defined.

Lemma empty_id_stays_witness :
  JsMap.get
    (resultPromises
       (performAll [CallShowProgress "" (plain "build" None None None) 7]
                   fresh)) "" = Some 0 /\
  JsMap.get
    (resultPromises
       (performAll ([CallShowProgress "" (plain "build" None None None) 7]
                    ++ [CallAccept (ById "") (Some "Cancel"); CallClearAll])
                   fresh)) "" = Some 0.
Proof.
  split; [reflexivity|].
  exact (proj1 (@empty_id_stays deps
    [CallShowProgress "" (plain "build" None None None) 7]
    [CallAccept (ById "") (Some "Cancel"); CallClearAll] 3000%Z 0 eq_refl)).
Defined.

Lemma register_completes_witness :
  truthyString (c_name (withPattern "m" (PatternName "tsc"))) = true /\
  exists trace w',
    run (CallRegister (withPattern "m" (PatternName "tsc")) :: trace)
        (init readyRegistry) = Some w' /\
    option_map (fun m => pattern m) (get (registry w') "m")
    = Some (PatternArray [pat "a"; pat "b"; pat "c"]).
Proof.
  split; [reflexivity|].
  destruct (@register_completes common
              (withPattern "m" (PatternName "tsc")) (init readyRegistry)
              eq_refl (fun _ => eq_refl)) as (trace & w' & Hrun & Hreg & _).
  exists trace, w'. split; [exact Hrun|]. rewrite Hreg. reflexivity.
Defined.

End MoreSamples.

Module NotificationMainSamples.
Import Floats NotificationMain.

Lemma stopProgress_effect_witness :
  JsMap.get
    (progress2Work
       (performAll [Start "p1";
                    Update "p1" {| message := None;
                                   increment := Some 30%float |};
                    Update "p1" {| message := Some "almost";
                                   increment := Some 90%float |}] create))
    "p1" = Some 100%float /\
  cancelled
    (stopProgress "p1"
       (performAll [Start "p1";
                    Update "p1" {| message := None;
                                   increment := Some 30%float |};
                    Update "p1" {| message := Some "almost";
                                   increment := Some 90%float |}] create))
  = ["p1"] /\
  JsMap.get
    (progress2Work
       (stopProgress "p1"
          (performAll [Start "p1";
                       Update "p1" {| message := None;
                                      increment := Some 30%float |};
                       Update "p1" {| message := Some "almost";
                                      increment := Some 90%float |}] create)))
    "p1" = None.
Proof.
  split; [reflexivity|].
  destruct (@NotificationMainFacts.stopProgress_effect
    [Start "p1";
     Update "p1" {| message := None; increment := Some 30%float |};
     Update "p1" {| message := Some "almost"; increment := Some 90%float |}]
    _ "p1" eq_refl) as [_ Hstop].
  destruct Hstop as (Hc & _ & Hw & _); [discriminate|].
  split; [exact Hc|exact Hw].
Defined.

End NotificationMainSamples.
